(** * Budget1: the shared-ledger core of [src/app.js]

    A shallow embedding of the React component [App] and of the form
    component [AddItemForm]: the aggregation of the [useMemo] block, the
    mutation handlers [handleAddItem] and [handleDeleteItem], the
    [onSnapshot] callbacks and the two [useEffect] bodies.

    JavaScript numbers are IEEE-754 binary64 values and are modelled by
    Rocq's primitive floats; React state is an explicit record threaded
    through a small state-and-exception monad; an [async] handler is split
    at its [await] into the part that runs when it is called and the part
    that runs when the awaited promise settles. *)

From Stdlib Require Import Bool Arith ZArith List String Ascii Lia.
From Stdlib Require Import Sorted Permutation.
From Stdlib Require Import PrimFloat SpecFloat FloatOps FloatAxioms.
Import ListNotations.

Local Open Scope string_scope.
Local Open Scope list_scope.

(** ** JavaScript values used by the component *)

Module JS.

(** A JS number. *)
Definition number : Type := float.

(** [!s] on a string is [true] exactly for the empty string. *)
Definition truthy (s : string) : bool :=
  match s with
  | EmptyString => false
  | String _ _ => true
  end.

(** Truthiness of a value that is [null] or a string ([userId]). *)
Definition truthy_opt (o : option string) : bool :=
  match o with
  | None => false
  | Some s => truthy s
  end.

(** Truthiness of a value that is [null] or an object ([db]). *)
Definition truthy_obj {A : Type} (o : option A) : bool :=
  match o with
  | None => false
  | Some _ => true
  end.

(** *** [parseFloat]

    The builtin, on text held as UTF-8: leading white space (every
    [StrWhiteSpaceChar]) is skipped, then the longest prefix that is a
    [StrDecimalLiteral] (sign, [Infinity], digits, fraction, exponent) is
    read and rounded to the nearest binary64 value, ties to even; [NaN]
    when there is no such prefix. *)

Definition is_digit (c : ascii) : bool :=
  let n := nat_of_ascii c in (48 <=? n)%nat && (n <=? 57)%nat.

Definition digit_val (c : ascii) : Z := Z.of_nat (nat_of_ascii c - 48).

(** White space and line terminators of one byte: TAB, LF, VT, FF, CR and
    the space. *)
Definition is_white (c : ascii) : bool :=
  let n := nat_of_ascii c in
  ((9 <=? n)%nat && (n <=? 13)%nat) || (n =? 32)%nat.

(** Of two bytes: U+00A0 (C2 A0). *)
Definition is_white2 (c1 c2 : ascii) : bool :=
  (nat_of_ascii c1 =? 194)%nat && (nat_of_ascii c2 =? 160)%nat.

(** Of three bytes: U+1680 (E1 9A 80), U+2000 to U+200A (E2 80 80..8A),
    U+2028, U+2029, U+202F (E2 80 A8, A9, AF), U+205F (E2 81 9F), U+3000
    (E3 80 80) and U+FEFF (EF BB BF). *)
Definition is_white3 (c1 c2 c3 : ascii) : bool :=
  let a := nat_of_ascii c1 in
  let b := nat_of_ascii c2 in
  let c := nat_of_ascii c3 in
  ((a =? 225) && (b =? 154) && (c =? 128))%nat
  || ((a =? 226) && (b =? 128)
      && (((128 <=? c) && (c <=? 138)) || (c =? 168) || (c =? 169)
          || (c =? 175)))%nat
  || ((a =? 226) && (b =? 129) && (c =? 159))%nat
  || ((a =? 227) && (b =? 128) && (c =? 128))%nat
  || ((a =? 239) && (b =? 187) && (c =? 191))%nat.

Fixpoint trimStart (s : string) : string :=
  match s with
  | String c1 s1 =>
      if is_white c1 then trimStart s1
      else
        match s1 with
        | String c2 s2 =>
            if is_white2 c1 c2 then trimStart s2
            else
              match s2 with
              | String c3 s3 =>
                  if is_white3 c1 c2 c3 then trimStart s3 else s
              | EmptyString => s
              end
        | EmptyString => s
        end
  | EmptyString => EmptyString
  end.

(** Reads [DecimalDigits]: the value accumulated on [acc], the number of
    digits read on top of [n], and the rest of the string. *)
Fixpoint read_digits (acc : Z) (n : Z) (s : string) : Z * Z * string :=
  match s with
  | String c s' =>
      if is_digit c then read_digits (10 * acc + digit_val c)%Z (n + 1)%Z s'
      else (acc, n, s)
  | EmptyString => (acc, n, s)
  end.

(** The optional [ExponentPart]; [0] when [e] is not followed by digits. *)
Definition read_exponent (s : string) : Z :=
  match s with
  | String c s' =>
      if Ascii.eqb c "e" || Ascii.eqb c "E" then
        match s' with
        | String "-" s'' =>
            let '(x, n, _) := read_digits 0 0 s'' in
            if (0 <? n)%Z then (- x)%Z else 0%Z
        | String "+" s'' =>
            let '(x, n, _) := read_digits 0 0 s'' in
            if (0 <? n)%Z then x else 0%Z
        | _ =>
            let '(x, n, _) := read_digits 0 0 s' in
            if (0 <? n)%Z then x else 0%Z
        end
      else 0%Z
  | EmptyString => 0%Z
  end.

(** [m * 10^e] rounded to binary64, with the sign [neg]. *)
Definition of_decimal (neg : bool) (m : Z) (e : Z) : number :=
  match m with
  | Z0 => if neg then neg_zero else zero
  | _ =>
      if (0 <=? e)%Z then
        SF2Prim (binary_normalize prec emax
                   (cond_Zopp neg (m * 10 ^ e)%Z) 0%Z false)
      else
        let '(q, e', l) :=
          SFdiv_core_binary prec emax m 0%Z (10 ^ (- e))%Z 0%Z in
        SF2Prim (binary_round_aux prec emax neg q e' l)
  end.

(** [StrUnsignedDecimalLiteral] at the head of [s]. *)
Definition parse_unsigned (neg : bool) (s : string) : number :=
  if String.prefix "Infinity" s then
    (if neg then neg_infinity else infinity)
  else
    let '(m1, n1, r1) := read_digits 0 0 s in
    let '(m, n2, r2) :=
      match r1 with
      | String "." r1' => read_digits m1 0 r1'
      | _ => (m1, 0%Z, r1)
      end in
    if (n1 + n2 =? 0)%Z then nan
    else of_decimal neg m (read_exponent r2 - n2).

Definition parseFloat (s : string) : number :=
  match trimStart s with
  | String "-" s' => parse_unsigned true s'
  | String "+" s' => parse_unsigned false s'
  | s' => parse_unsigned false s'
  end.

End JS.

(** ** Data model *)

(** The object the form hands to [onAddItem]:
    [{ description, amount: parseFloat(amount), type }]. *)
Module Payload.
Record t : Type := mk {
  description : string;
  amount : JS.number;
  type : string
}.
End Payload.

(** The fields [handleAddItem] writes: the payload spread, then [createdAt]
    and [authorId].  [createdAt] is the server's timestamp; [authorId] is
    [userId], which is [null] until the sign-in has completed. *)
Module DocData.
Record t : Type := mk {
  description : string;
  amount : JS.number;
  type : string;
  createdAt : Z;
  authorId : option string
}.
End DocData.

(** A document of the collection: [doc.id] and [doc.data()]. *)
Record Doc : Type := mkDoc {
  doc_id : string;
  doc_data : DocData.t
}.

(** An entry of the [items] state: [{ id: doc.id, ...doc.data() }].  The
    documents [handleAddItem] writes have no field named [id], so the
    spread leaves [doc.id] in place. *)
Record Item : Type := mkItem {
  id : string;
  description : string;
  amount : JS.number;
  type : string;
  createdAt : Z;
  authorId : option string
}.

(** ** Aggregation: the [useMemo] block of [App] *)

Record Aggregate : Type := mkAggregate {
  totalIncome : JS.number;
  totalExpenses : JS.number;
  balance : JS.number;
  incomeItems : list Item;
  expenseItems : list Item
}.

(** [array.reduce((sum, item) => sum + item.amount, 0)] *)
Definition reduce_amounts (l : list Item) : JS.number :=
  fold_left (fun sum item => (sum + amount item)%float) l zero.

Definition derive (items : list Item) : Aggregate :=
  let incomeItems := filter (fun item => type item =? "income") items in
  let expenseItems := filter (fun item => type item =? "expense") items in
  let totalIncome := reduce_amounts incomeItems in
  let totalExpenses := reduce_amounts expenseItems in
  {| totalIncome := totalIncome;
     totalExpenses := totalExpenses;
     balance := (totalIncome - totalExpenses)%float;
     incomeItems := incomeItems;
     expenseItems := expenseItems |}.

(** The sum the data model describes, [Σ amount for type = t]: one pass over
    the Snapshot, in its order, adding the amounts of the entries of type
    [t] to [acc]. *)
Fixpoint sum_amounts_from (t : string) (acc : JS.number) (S : list Item)
  : JS.number :=
  match S with
  | [] => acc
  | e :: S' =>
      sum_amounts_from t
        (if type e =? t then (acc + amount e)%float else acc) S'
  end.

Definition sum_amounts (t : string) (S : list Item) : JS.number :=
  sum_amounts_from t zero S.

(** ** The remote store, as the component uses it *)

(** [serverTimestamp()]: the sentinel the server replaces by its clock. *)
Inductive FieldValue : Type := serverTimestamp.

(** The object given to [addDoc]:
    [{ ...item, createdAt: serverTimestamp(), authorId: userId }]. *)
Module NewDoc.
Record t : Type := mk {
  item : Payload.t;
  createdAt : FieldValue;
  authorId : option string
}.
End NewDoc.

(** The two writes the component sends. *)
Inductive StoreCall : Type :=
| AddDoc (collectionPath : string) (fields : NewDoc.t)
| DeleteDoc (docPath : string).

(** How a store promise settles.  A fulfilled [addDoc] carries what the
    server assigned; a fulfilled [deleteDoc] carries nothing, and the two
    values are not read. *)
Inductive Reply : Type :=
| Fulfilled (newId : string) (serverTime : Z)
| Rejected (err : string).

(** Modelled from the spec: the Remote Ledger Store's [insert(path, fields)
    → {id, createdAt}] (§6), which is Firestore's and not in [src/].  The
    collection keeps its documents in insertion order. *)
Definition store_insert (newId : string) (serverTime : Z) (fields : NewDoc.t)
    (docs : list Doc) : list Doc :=
  docs ++
  [ {| doc_id := newId;
       doc_data :=
         {| DocData.description := Payload.description (NewDoc.item fields);
            DocData.amount := Payload.amount (NewDoc.item fields);
            DocData.type := Payload.type (NewDoc.item fields);
            DocData.createdAt := serverTime;
            DocData.authorId := NewDoc.authorId fields |} |} ].

(** Modelled from the spec: the store's [delete(path/id) → success |
    not-found] (§6): the document at [docPath] is removed when there is
    one; both outcomes fulfil the promise. *)
Definition store_delete (collectionPath docPath : string) (docs : list Doc)
  : list Doc :=
  filter (fun d => negb ((collectionPath ++ "/" ++ doc_id d)%string =? docPath))
    docs.

(** Modelled from the spec: the store's ordered subscription
    [subscribe(path, orderKey = createdAt desc)] (§6), the result of
    [query(itemsCollection, orderBy('createdAt', 'desc'))]: the full
    collection, newest first, equal timestamps in the store's own (here:
    insertion) order. *)
Fixpoint insert_desc (d : Doc) (l : list Doc) : list Doc :=
  match l with
  | [] => [d]
  | x :: l' =>
      if (DocData.createdAt (doc_data x) <=? DocData.createdAt (doc_data d))%Z
      then d :: x :: l'
      else x :: insert_desc d l'
  end.

Definition query_orderBy_createdAt_desc (docs : list Doc) : list Doc :=
  fold_right insert_desc [] docs.

(** ** React state of [App] *)

(** The handles [getFirestore(app)] and [getAuth(app)] return. *)
Inductive Firestore : Type := firestoreDb.
Inductive Auth : Type := authInstance.

Record AppState : Type := mkApp {
  db : option Firestore;
  auth : option Auth;
  userId : option string;
  isAuthReady : bool;
  items : list Item;
  loading : bool;
  error : option string
}.

(** The values [useState] is given. *)
Definition initial_app : AppState :=
  {| db := None; auth := None; userId := None; isAuthReady := false;
     items := []; loading := true; error := None |}.

(** The component and what surrounds it. *)
Record World : Type := mkWorld {
  app : AppState;
  app_id : option string;       (* the global [__app_id], when defined *)
  console : list string;        (* [console.error] lines, newest first *)
  alerts : list string;         (* [alert] messages, newest first *)
  calls : list StoreCall;       (* every write sent, newest first *)
  pending : list StoreCall;     (* writes sent and not yet settled *)
  signingIn : bool;             (* [signInAnonymously] not yet settled *)
  listening : bool;             (* the [onSnapshot] listener is attached *)
  remote : list Doc;            (* the collection in the store *)
  uncaught : list string        (* exceptions no handler caught *)
}.

Definition initial_world (appId : option string) (docs : list Doc) : World :=
  {| app := initial_app; app_id := appId; console := []; alerts := [];
     calls := []; pending := []; signingIn := false; listening := false;
     remote := docs; uncaught := [] |}.

Definition with_app (f : AppState -> AppState) (w : World) : World :=
  {| app := f (app w); app_id := app_id w; console := console w;
     alerts := alerts w; calls := calls w; pending := pending w;
     signingIn := signingIn w; listening := listening w; remote := remote w;
     uncaught := uncaught w |}.

Definition with_console (l : list string) (w : World) : World :=
  {| app := app w; app_id := app_id w; console := l;
     alerts := alerts w; calls := calls w; pending := pending w;
     signingIn := signingIn w; listening := listening w; remote := remote w;
     uncaught := uncaught w |}.

Definition with_alerts (l : list string) (w : World) : World :=
  {| app := app w; app_id := app_id w; console := console w;
     alerts := l; calls := calls w; pending := pending w;
     signingIn := signingIn w; listening := listening w; remote := remote w;
     uncaught := uncaught w |}.

Definition with_calls (l p : list StoreCall) (w : World) : World :=
  {| app := app w; app_id := app_id w; console := console w;
     alerts := alerts w; calls := l; pending := p;
     signingIn := signingIn w; listening := listening w; remote := remote w;
     uncaught := uncaught w |}.

Definition with_signingIn (b : bool) (w : World) : World :=
  {| app := app w; app_id := app_id w; console := console w;
     alerts := alerts w; calls := calls w; pending := pending w;
     signingIn := b; listening := listening w; remote := remote w;
     uncaught := uncaught w |}.

Definition with_listening (b : bool) (w : World) : World :=
  {| app := app w; app_id := app_id w; console := console w;
     alerts := alerts w; calls := calls w; pending := pending w;
     signingIn := signingIn w; listening := b; remote := remote w;
     uncaught := uncaught w |}.

Definition with_remote (docs : list Doc) (w : World) : World :=
  {| app := app w; app_id := app_id w; console := console w;
     alerts := alerts w; calls := calls w; pending := pending w;
     signingIn := signingIn w; listening := listening w; remote := docs;
     uncaught := uncaught w |}.

Definition with_uncaught (l : list string) (w : World) : World :=
  {| app := app w; app_id := app_id w; console := console w;
     alerts := alerts w; calls := calls w; pending := pending w;
     signingIn := signingIn w; listening := listening w; remote := remote w;
     uncaught := l |}.

(** ** A state-and-exception monad for handler code *)

Inductive completion (A : Type) : Type :=
| Normal (a : A)
| Thrown (err : string).
Arguments Normal {A} a.
Arguments Thrown {A} err.

Definition M (A : Type) : Type := World -> completion A * World.

Definition ret {A : Type} (a : A) : M A := fun w => (Normal a, w).

Definition bind {A B : Type} (m : M A) (k : A -> M B) : M B :=
  fun w =>
    match m w with
    | (Normal a, w') => k a w'
    | (Thrown e, w') => (Thrown e, w')
    end.

Definition throw {A : Type} (err : string) : M A := fun w => (Thrown err, w).

Notation "x <- m ;; k" := (bind m (fun x => k))
  (at level 61, m at next level, right associativity).
Notation "m ;; k" := (bind m (fun _ => k))
  (at level 61, right associativity).

(** [try { body } catch (err) { handler }] *)
Definition try_catch {A : Type} (body : M A) (handler : string -> M A) : M A :=
  fun w =>
    match body w with
    | (Normal a, w') => (Normal a, w')
    | (Thrown e, w') => handler e w'
    end.

(** [try { body } finally { fin }] *)
Definition try_finally {A : Type} (body : M A) (fin : M unit) : M A :=
  fun w =>
    let '(c, w') := body w in
    match fin w' with
    | (Normal _, w'') => (c, w'')
    | (Thrown e, w'') => (Thrown e, w'')
    end.

Definition get : M World := fun w => (Normal w, w).
Definition modify (f : World -> World) : M unit := fun w => (Normal tt, f w).

(** The state setters of [useState]. *)
Definition setDb (v : option Firestore) : M unit :=
  modify (with_app (fun a =>
    {| db := v; auth := auth a; userId := userId a;
       isAuthReady := isAuthReady a; items := items a; loading := loading a;
       error := error a |})).

Definition setAuth (v : option Auth) : M unit :=
  modify (with_app (fun a =>
    {| db := db a; auth := v; userId := userId a;
       isAuthReady := isAuthReady a; items := items a; loading := loading a;
       error := error a |})).

Definition setUserId (v : option string) : M unit :=
  modify (with_app (fun a =>
    {| db := db a; auth := auth a; userId := v;
       isAuthReady := isAuthReady a; items := items a; loading := loading a;
       error := error a |})).

Definition setIsAuthReady (v : bool) : M unit :=
  modify (with_app (fun a =>
    {| db := db a; auth := auth a; userId := userId a;
       isAuthReady := v; items := items a; loading := loading a;
       error := error a |})).

Definition setItems (v : list Item) : M unit :=
  modify (with_app (fun a =>
    {| db := db a; auth := auth a; userId := userId a;
       isAuthReady := isAuthReady a; items := v; loading := loading a;
       error := error a |})).

Definition setLoading (v : bool) : M unit :=
  modify (with_app (fun a =>
    {| db := db a; auth := auth a; userId := userId a;
       isAuthReady := isAuthReady a; items := items a; loading := v;
       error := error a |})).

Definition setError (v : string) : M unit :=
  modify (with_app (fun a =>
    {| db := db a; auth := auth a; userId := userId a;
       isAuthReady := isAuthReady a; items := items a; loading := loading a;
       error := Some v |})).

(** [console.error(label, err)] and [alert(msg)]. *)
Definition console_error (label err : string) : M unit :=
  modify (fun w => with_console ((label ++ err)%string :: console w) w).

Definition alert (msg : string) : M unit :=
  modify (fun w => with_alerts (msg :: alerts w) w).

(** A write handed to the store: its promise is pending from here on. *)
Definition send (c : StoreCall) : M unit :=
  modify (fun w => with_calls (c :: calls w) (pending w ++ [c]) w).

(** [await p] once [p] has settled with [r]. *)
Definition await (r : Reply) : M unit :=
  match r with
  | Fulfilled _ _ => ret tt
  | Rejected err => throw err
  end.

(** ** The handlers of [App] *)

(** [typeof __app_id !== 'undefined' ? __app_id : 'default-app-id'] *)
Definition appId (w : World) : string :=
  match app_id w with
  | Some a => a
  | None => "default-app-id"
  end.

(** [`artifacts/${appId}/public/data/budget-items`] *)
Definition collectionPath (w : World) : string :=
  ("artifacts/" ++ appId w ++ "/public/data/budget-items")%string.

(** [`artifacts/${appId}/public/data/budget-items/${id}`] *)
Definition docPath (w : World) (id : string) : string :=
  ("artifacts/" ++ appId w ++ "/public/data/budget-items" ++ "/" ++ id)%string.

(** [handleAddItem], from its call to its [await]. *)
Definition handleAddItem (item : Payload.t) : M unit :=
  w <- get ;;
  if negb (JS.truthy_obj (db (app w))) then ret tt
  else
    setLoading true ;;
    send (AddDoc (collectionPath w)
            {| NewDoc.item := item;
               NewDoc.createdAt := serverTimestamp;
               NewDoc.authorId := userId (app w) |}).

(** [handleAddItem], from the [await] on: the rest of the [try], the
    [catch] and the [finally]. *)
Definition handleAddItem_resume (r : Reply) : M unit :=
  try_finally
    (try_catch (await r)
       (fun err =>
          console_error "Error adding document: " err ;;
          setError "Could not add the item."))
    (setLoading false).

(** [handleDeleteItem], from its call to its [await]. *)
Definition handleDeleteItem (id : string) : M unit :=
  w <- get ;;
  if negb (JS.truthy_obj (db (app w))) then ret tt
  else send (DeleteDoc (docPath w id)).

(** [handleDeleteItem], from the [await] on. *)
Definition handleDeleteItem_resume (r : Reply) : M unit :=
  try_catch (await r)
    (fun err =>
       console_error "Error deleting document: " err ;;
       setError "Could not delete the item.").

(** The [onSnapshot] callbacks. *)
Definition item_of_doc (doc : Doc) : Item :=
  {| id := doc_id doc;
     description := DocData.description (doc_data doc);
     amount := DocData.amount (doc_data doc);
     type := DocData.type (doc_data doc);
     createdAt := DocData.createdAt (doc_data doc);
     authorId := DocData.authorId (doc_data doc) |}.

Definition onSnapshot_next (docs : list Doc) : M unit :=
  let fetchedItems := map item_of_doc docs in
  setItems fetchedItems ;;
  setLoading false.

Definition onSnapshot_error (err : string) : M unit :=
  console_error "Firestore Error:" err ;;
  setError "Failed to fetch budget items." ;;
  setLoading false.

(** The data-fetching [useEffect]: [true] when it attached a listener. *)
Definition dataFetchingEffect : M bool :=
  w <- get ;;
  if negb (JS.truthy_obj (db (app w))) || negb (isAuthReady (app w))
     || negb (JS.truthy_opt (userId (app w)))
  then ret false
  else
    setLoading true ;;
    modify (with_listening true) ;;
    ret true.

(** Its cleanup, [() => unsubscribe()]. *)
Definition dataFetchingCleanup : M unit := modify (with_listening false).

(** ** [AddItemForm] *)

Module AddItemForm.

Record State : Type := mk {
  description : string;
  amount : string
}.

(** *** The constraints of the markup

    The description is an [<input type="text" required>], the amount an
    [<input type="number" min="0.01" step="0.01" required>], and the
    [<form onSubmit={handleSubmit}>] has no [noValidate]: the browser fires
    [onSubmit] only when both inputs satisfy their constraints. *)

Definition min : string := "0.01".

(** The optional exponent of a valid floating-point number, up to the end
    of the text: [e] or [E], an optional sign, one or more digits. *)
Definition read_exponent_part (s : string) : option Z :=
  match s with
  | EmptyString => Some 0%Z
  | String c s' =>
      if Ascii.eqb c "e" || Ascii.eqb c "E" then
        let '(neg, s'') :=
          match s' with
          | String "-" t => (true, t)
          | String "+" t => (false, t)
          | _ => (false, s')
          end in
        match JS.read_digits 0 0 s'' with
        | (x, n, EmptyString) =>
            if (0 <? n)%Z then Some (if neg then (- x)%Z else x) else None
        | _ => None
        end
      else None
  end.

(** The only non-empty values an input of [type="number"] holds are the
    valid floating-point numbers: an optional [-], digits or a fraction or
    both, an optional exponent, and nothing else.  The result is the sign
    and the decimal [(m, e)], standing for [m * 10^e]. *)
Definition read_number (s : string) : option (bool * Z * Z) :=
  let '(neg, s0) :=
    match s with
    | String "-" s' => (true, s')
    | _ => (false, s)
    end in
  let '(m1, n1, r1) := JS.read_digits 0 0 s0 in
  let fraction :=
    match r1 with
    | String "." r1' =>
        let '(m, n2, r2) := JS.read_digits m1 0 r1' in
        if (0 <? n2)%Z then Some (m, n2, r2) else None
    | _ => Some (m1, 0%Z, r1)
    end in
  match fraction with
  | Some (m, n2, r2) =>
      if (n1 + n2 =? 0)%Z then None
      else
        match read_exponent_part r2 with
        | Some x => Some (neg, m, (x - n2)%Z)
        | None => None
        end
  | None => None
  end.

(** [step="0.01"] with the step base [min]: the value less [0.01] is a
    whole multiple of [0.01], that is, [m * 10^e] is a whole number of
    hundredths. *)
Definition step_matches (m e : Z) : bool :=
  if (0 <=? e + 2)%Z then true
  else (m mod 10 ^ (- (e + 2)) =? 0)%Z.

(** What the browser checks before it fires [onSubmit]: [required] on
    both inputs, a number in the amount, not below [min], on a step. *)
Definition checkValidity (st : State) : bool :=
  JS.truthy (description st)
  && match read_number (amount st) with
     | Some (_, m, e) =>
         (JS.parseFloat min <=? JS.parseFloat (amount st))%float
         && step_matches m e
     | None => false
     end.

(** [handleSubmit]; the result is the form's state afterwards. *)
Definition handleSubmit (type : string) (onAddItem : Payload.t -> M unit)
    (st : State) : M State :=
  if negb (JS.truthy (description st)) || negb (JS.truthy (amount st)) then
    alert "Please fill out both description and amount." ;;
    ret st
  else
    onAddItem {| Payload.description := description st;
                 Payload.amount := JS.parseFloat (amount st);
                 Payload.type := type |} ;;
    ret {| description := ""; amount := "" |}.

End AddItemForm.

(** ** Start-up: the first [useEffect] and the auth callback *)

(** What the environment gives the first effect. *)
Inductive Startup : Type :=
| ConfigMissing                  (* [firebaseConfig] is [null] *)
| ConfigMalformed (err : string) (* [JSON.parse] throws *)
| SdkThrows (err : string)       (* [initializeApp], [getFirestore] or [getAuth] throws *)
| SdkReady.

Definition initEffect (s : Startup) : M unit :=
  match s with
  | ConfigMalformed err => throw err
  | ConfigMissing =>
      setError "Firebase configuration is missing. Make sure it's set in Netlify." ;;
      setLoading false
  | _ =>
      try_catch
        (match s with
         | SdkThrows err => throw err
         | _ => setDb (Some firestoreDb) ;; setAuth (Some authInstance)
         end)
        (fun e =>
           console_error "Firebase Initialization Error:" e ;;
           setError "Could not connect to the database." ;;
           setLoading false)
  end.

(** The [onAuthStateChanged] callback, up to its [await] (or its end, when
    there is a user). *)
Definition authCallback (user : option string) : M unit :=
  match user with
  | Some uid => setUserId (Some uid) ;; setIsAuthReady true
  | None => modify (with_signingIn true)
  end.

(** The callback from [await signInAnonymously(authInstance)] on;
    [failure] is the rejection, if any. *)
Definition authCallback_resume (failure : option string) : M unit :=
  try_catch
    (match failure with
     | None => ret tt
     | Some authError => throw authError
     end)
    (fun authError =>
       console_error "Authentication Error:" authError ;;
       setError "Failed to authenticate. Please refresh the page.") ;;
  setIsAuthReady true.

(** ** The event loop *)

(** What can happen to the component.  [Submit] is the user submitting the
    form of that type with these field values: the browser checks the
    constraints of the markup first and calls [handleSubmit] only when
    they hold.  [AddItem] and [DeleteItem] are calls of the two handlers
    themselves. *)
Inductive event : Type :=
| Mount (s : Startup)
| AuthStateChanged (user : option string)
| SignInSettled (failure : option string)
| DataEffect
| Submit (type : string) (form : AddItemForm.State)
| AddItem (item : Payload.t)
| DeleteItem (id : string)
| StoreReply (n : nat) (r : Reply)
| SnapshotNext
| SnapshotError (err : string)
| RemoteInsert (d : Doc)
| RemoteDelete (id : string).

(** Runs a handler to its end; an exception nobody caught is recorded. *)
Definition run_handler {A : Type} (m : M A) (w : World) : World :=
  match m w with
  | (Normal _, w') => w'
  | (Thrown e, w') => with_uncaught (e :: uncaught w') w'
  end.

Definition remove_nth {A : Type} (n : nat) (l : list A) : list A :=
  firstn n l ++ skipn (S n) l.

(** What a fulfilled write does to the collection. *)
Definition store_apply (w : World) (c : StoreCall) (r : Reply) : list Doc :=
  match r, c with
  | Rejected _, _ => remote w
  | Fulfilled newId serverTime, AddDoc path fields =>
      if path =? collectionPath w
      then store_insert newId serverTime fields (remote w)
      else remote w
  | Fulfilled _ _, DeleteDoc path =>
      store_delete (collectionPath w) path (remote w)
  end.

(** The promise of the [n]-th pending write settles with [r]. *)
Definition settle (n : nat) (r : Reply) (w : World) : World :=
  match nth_error (pending w) n with
  | None => w
  | Some c =>
      let w1 := with_remote (store_apply w c r)
                  (with_calls (calls w) (remove_nth n (pending w)) w) in
      match c with
      | AddDoc _ _ => run_handler (handleAddItem_resume r) w1
      | DeleteDoc _ => run_handler (handleDeleteItem_resume r) w1
      end
  end.

Definition step (w : World) (ev : event) : World :=
  match ev with
  | Mount s => run_handler (initEffect s) w
  | AuthStateChanged user =>
      if JS.truthy_obj (auth (app w)) then run_handler (authCallback user) w
      else w
  | SignInSettled failure =>
      if signingIn w
      then run_handler (authCallback_resume failure) (with_signingIn false w)
      else w
  | DataEffect =>
      run_handler (dataFetchingCleanup ;; dataFetchingEffect) w
  | Submit type form =>
      if AddItemForm.checkValidity form
      then run_handler (AddItemForm.handleSubmit type handleAddItem form) w
      else w
  | AddItem item => run_handler (handleAddItem item) w
  | DeleteItem id => run_handler (handleDeleteItem id) w
  | StoreReply n r => settle n r w
  | SnapshotNext =>
      if listening w
      then run_handler
             (onSnapshot_next (query_orderBy_createdAt_desc (remote w))) w
      else w
  | SnapshotError err =>
      if listening w
      then run_handler (onSnapshot_error err) (with_listening false w)
      else w
  | RemoteInsert d => with_remote (remote w ++ [d]) w
  | RemoteDelete id =>
      with_remote (store_delete (collectionPath w) (docPath w id) (remote w)) w
  end.

Definition run (evs : list event) (w : World) : World :=
  fold_left step evs w.

(** ** Properties stated over the model *)

(** Newest first: no entry stands before one with a larger [createdAt]. *)
Definition sorted_desc (l : list Item) : Prop :=
  StronglySorted (fun a b => (createdAt b <= createdAt a)%Z) l.

(** The same, entry by entry: of two entries with different timestamps the
    newer one stands at the smaller index. *)
Definition newest_first (l : list Item) : Prop :=
  forall i j a b,
    nth_error l i = Some a -> nth_error l j = Some b ->
    (createdAt b < createdAt a)%Z -> i < j.

(** The same for the store's documents. *)
Definition docs_sorted_desc (l : list Doc) : Prop :=
  StronglySorted
    (fun a b =>
       (DocData.createdAt (doc_data b) <= DocData.createdAt (doc_data a))%Z) l.

(** A write is in flight. *)
Definition in_flight (w : World) : Prop := pending w <> [].

(** The listener is attached once the data-fetching effect has run. *)
Definition subscribes (w : World) : Prop :=
  listening (run_handler dataFetchingEffect w) = true.

(** The partition as the specification words it, for a Snapshot of ledger
    entries: an entry goes to [incomeItems] when its type is income and to
    [expenseItems] otherwise, the two lists together are the Snapshot, and
    they share no entry. *)
Definition partition_as_specified (S : list Item) : Prop :=
  (forall e, In e S ->
     if type e =? "income" then In e (incomeItems (derive S))
     else In e (expenseItems (derive S))) /\
  Permutation (incomeItems (derive S) ++ expenseItems (derive S)) S /\
  (forall e, ~ (In e (incomeItems (derive S)) /\
                In e (expenseItems (derive S)))).

(** The Snapshots of the data model: every entry is a ledger entry, of
    one of the two types (the only ones the forms write). *)
Definition well_typed (S : list Item) : Prop :=
  Forall (fun e => type e = "income" \/ type e = "expense") S.

(** An amount that is not a positive number: zero, negative or [NaN]. *)
Definition not_positive (x : JS.number) : bool := negb (0 <? x)%float.


(** The busy state as the specification words it. *)
Definition busy_while_in_flight (w : World) : Prop :=
  in_flight w -> loading (app w) = true.

(** The subscription as the specification words it: no session identifier
    is needed. *)
Definition subscription_ungated (w : World) : Prop :=
  db (app w) <> None -> userId (app w) = None -> subscribes w.

(** The events that may lower the [loading] flag: the start-up effect, the
    two [onSnapshot] callbacks and the settlement of an add. *)
Definition lowers_loading (w : World) (ev : event) : bool :=
  match ev with
  | Mount _ | SnapshotNext | SnapshotError _ => true
  | StoreReply n _ =>
      match nth_error (pending w) n with
      | Some (AddDoc _ _) => true
      | _ => false
      end
  | _ => false
  end.

Definition is_snapshot (ev : event) : bool :=
  match ev with
  | SnapshotNext => true
  | _ => false
  end.

(** ** Concrete sessions *)

Definition paycheck_doc : Doc :=
  {| doc_id := "a1";
     doc_data :=
       {| DocData.description := "Paycheck"; DocData.amount := 1000%float;
          DocData.type := "income"; DocData.createdAt := 10%Z;
          DocData.authorId := Some "u2" |} |}.

(** An entry the store may hold whose type is neither of the two. *)
Definition savings_entry : Item :=
  {| id := "s1"; description := "Holiday fund"; amount := 50%float;
     type := "savings"; createdAt := 5%Z; authorId := None |}.

(** Started, signed in as ["u1"], subscribed, first Snapshot received. *)
Definition ready_world : World :=
  run [Mount SdkReady; AuthStateChanged (Some "u1"); DataEffect; SnapshotNext]
    (initial_world None [paycheck_doc]).

(** Started, but the anonymous sign-in was refused: the handshake is over
    and there is no session identifier. *)
Definition signin_failed_world : World :=
  run [Mount SdkReady; AuthStateChanged None;
       SignInSettled (Some "auth/network-request-failed")]
    (initial_world None [paycheck_doc]).

Definition rent : Payload.t :=
  {| Payload.description := "Rent"; Payload.amount := 700%float;
     Payload.type := "expense" |}.

(** An income entry of 100 written by another session. *)
Definition gift (i : string) (t : Z) : Doc :=
  {| doc_id := i;
     doc_data :=
       {| DocData.description := "Gift"; DocData.amount := 100%float;
          DocData.type := "income"; DocData.createdAt := t;
          DocData.authorId := Some i |} |}.

(** The first scenario: a paycheck, then groceries. *)
Definition scenario_events : list event :=
  [Mount SdkReady; AuthStateChanged (Some "u1"); DataEffect; SnapshotNext;
   Submit "income" {| AddItemForm.description := "Paycheck";
                      AddItemForm.amount := "1000" |};
   StoreReply 0 (Fulfilled "a1" 10); SnapshotNext;
   Submit "expense" {| AddItemForm.description := "Groceries";
                       AddItemForm.amount := "150.50" |};
   StoreReply 0 (Fulfilled "a2" 20); SnapshotNext].

(** ** What [App] returns to React *)

(** The props of the child components. *)
Module StatCard.
Record props : Type := mk {
  title : string;
  amount : JS.number;
  colorClass : string;
  icon : string
}.
End StatCard.

Module AddItemFormProps.
Record props : Type := mk {
  type : string;
  loading : bool
}.
End AddItemFormProps.

Module ItemList.
Record props : Type := mk {
  title : string;
  items : list Item;
  loading : bool;
  colorClass : string
}.
End ItemList.

(** Either the error [div] alone, or the page: the user line of the header,
    the three summary cards, and a form and a list for each type. *)
Inductive View : Type :=
| ErrorScreen (message : string)
| Dashboard (userLine : option string)
    (cards : list StatCard.props)
    (incomeForm : AddItemFormProps.props) (incomeList : ItemList.props)
    (expenseForm : AddItemFormProps.props) (expenseList : ItemList.props).

(** The render logic of [App]: [if (error) return <div>{error}</div>], and
    the page otherwise. *)
Definition render (a : AppState) : View :=
  let agg := derive (items a) in
  if JS.truthy_opt (error a) then
    ErrorScreen (match error a with Some e => e | None => "" end)
  else
    Dashboard
      (if JS.truthy_opt (userId a)
       then match userId a with
            | Some u => Some ("Your User ID: " ++ u)%string
            | None => None
            end
       else None)
      [ {| StatCard.title := "Total Income";
           StatCard.amount := totalIncome agg;
           StatCard.colorClass := "text-green-500";
           StatCard.icon := "➕" |};
        {| StatCard.title := "Total Expenses";
           StatCard.amount := totalExpenses agg;
           StatCard.colorClass := "text-red-500";
           StatCard.icon := "➖" |};
        {| StatCard.title := "Balance";
           StatCard.amount := balance agg;
           StatCard.colorClass :=
             if (0 <=? balance agg)%float then "text-blue-500"
             else "text-yellow-500";
           StatCard.icon := "=" |} ]
      {| AddItemFormProps.type := "income";
         AddItemFormProps.loading := loading a |}
      {| ItemList.title := "Income History";
         ItemList.items := incomeItems agg;
         ItemList.loading := loading a;
         ItemList.colorClass := "border-green-500" |}
      {| AddItemFormProps.type := "expense";
         AddItemFormProps.loading := loading a |}
      {| ItemList.title := "Expense History";
         ItemList.items := expenseItems agg;
         ItemList.loading := loading a;
         ItemList.colorClass := "border-red-500" |}.

(** The page offers the two add forms with their button enabled: an add
    can be tried (again). *)
Definition retry_offered (a : AppState) : bool :=
  match render a with
  | ErrorScreen _ => false
  | Dashboard _ _ incomeForm _ expenseForm _ =>
      negb (AddItemFormProps.loading incomeForm)
      && negb (AddItemFormProps.loading expenseForm)
  end.

(** The failed add as the specification words it: the write error is
    shown, nothing is created or changed locally, and the flag is cleared
    so that a retry can be attempted. *)
Definition add_failure_as_specified (w : World) (n : nat) (err : string)
  : Prop :=
  error (app (step w (StoreReply n (Rejected err))))
  = Some "Could not add the item." /\
  remote (step w (StoreReply n (Rejected err))) = remote w /\
  items (app (step w (StoreReply n (Rejected err)))) = items (app w) /\
  loading (app (step w (StoreReply n (Rejected err)))) = false /\
  retry_offered (app (step w (StoreReply n (Rejected err)))) = true.

(** ** More vocabulary for the properties *)

Definition is_mount (ev : event) : bool :=
  match ev with
  | Mount _ => true
  | _ => false
  end.

(** The auth listener reports a signed-in user. *)
Definition is_signed_in (ev : event) : bool :=
  match ev with
  | AuthStateChanged (Some _) => true
  | _ => false
  end.

(** A start-up failure the first effect handles itself. *)
Definition startup_error (s : Startup) : option string :=
  match s with
  | ConfigMissing =>
      Some "Firebase configuration is missing. Make sure it's set in Netlify."
  | SdkThrows _ => Some "Could not connect to the database."
  | _ => None
  end.

(** A write of this deployment: an [addDoc] on its collection or a
    [deleteDoc] of a document path below it. *)
Definition own_write (w : World) (c : StoreCall) : Prop :=
  match c with
  | AddDoc path _ => path = collectionPath w
  | DeleteDoc path => exists i, path = docPath w i
  end.

(** The parse errors of the start-up events of a run, in order. *)
Definition config_parse_errors (evs : list event) : list string :=
  flat_map (fun ev => match ev with
                      | Mount (ConfigMalformed err) => [err]
                      | _ => []
                      end) evs.

(** What holds of the session state in every reachable world. *)
Definition session_inv (w : World) : Prop :=
  (db (app w) = None <-> auth (app w) = None) /\
  (userId (app w) <> None ->
   isAuthReady (app w) = true /\ db (app w) <> None) /\
  (listening w = true -> userId (app w) <> None) /\
  (items (app w) <> [] -> userId (app w) <> None).

(** A session whose start-up did not produce a database handle. *)
Definition without_db (w : World) : Prop :=
  db (app w) = None /\ auth (app w) = None /\ signingIn w = false /\
  listening w = false /\ pending w = [] /\ calls w = [].

(** What holds of the writes of every reachable world. *)
Definition writes_inv (w : World) : Prop :=
  Forall (own_write w) (calls w) /\
  incl (pending w) (calls w) /\
  (db (app w) = None -> calls w = []).

(** The entry a fulfilled add of [item] by [author] shows up as. *)
Definition entry_of (newId : string) (serverTime : Z) (item : Payload.t)
    (author : option string) : Item :=
  {| id := newId;
     description := Payload.description item;
     amount := Payload.amount item;
     type := Payload.type item;
     createdAt := serverTime;
     authorId := author |}.

(** * Aggregation *)

Section Aggregation.

Lemma reduce_filter (t : string) (S : list Item) :
  forall acc,
    fold_left (fun sum item => (sum + amount item)%float)
      (filter (fun item => type item =? t) S) acc
    = sum_amounts_from t acc S.
Proof.
  induction S as [|e S IH]; intros acc; simpl.
  - reflexivity.
  - destruct (type e =? t); simpl; apply IH.
Qed.

Lemma in_incomeItems (S : list Item) (e : Item) :
  In e (incomeItems (derive S)) <-> In e S /\ type e = "income".
Proof.
  unfold derive; simpl. rewrite filter_In, String.eqb_eq. reflexivity.
Qed.

Lemma in_expenseItems (S : list Item) (e : Item) :
  In e (expenseItems (derive S)) <-> In e S /\ type e = "expense".
Proof.
  unfold derive; simpl. rewrite filter_In, String.eqb_eq. reflexivity.
Qed.

Lemma partition_length_le (S : list Item) :
  List.length (incomeItems (derive S)) + List.length (expenseItems (derive S))
  <= List.length S.
Proof.
  unfold derive; simpl.
  induction S as [|e S IH]; simpl; [lia|].
  destruct (type e =? "income") eqn:Hi; destruct (type e =? "expense") eqn:He;
    simpl; try lia.
  apply String.eqb_eq in Hi. apply String.eqb_eq in He. congruence.
Qed.

Lemma partition_length_eq (S : list Item) :
  List.length (incomeItems (derive S)) + List.length (expenseItems (derive S))
  = List.length S ->
  well_typed S.
Proof.
  unfold well_typed.
  induction S as [|e S IH]; intros Hlen; [constructor|].
  pose proof (partition_length_le S) as Hle.
  unfold derive in *; simpl in *.
  destruct (type e =? "income") eqn:Hi; destruct (type e =? "expense") eqn:He;
    simpl in Hlen.
  - apply String.eqb_eq in Hi. apply String.eqb_eq in He. congruence.
  - constructor; [left; now apply String.eqb_eq | apply IH; lia].
  - constructor; [right; now apply String.eqb_eq | apply IH; lia].
  - lia.
Qed.

Lemma partition_perm (S : list Item) :
  well_typed S ->
  Permutation (incomeItems (derive S) ++ expenseItems (derive S)) S.
Proof.
  unfold well_typed, derive; simpl.
  induction 1 as [|e S [Ht|Ht] _ IH]; simpl; [constructor| |]; rewrite Ht; simpl.
  - now constructor.
  - symmetry. apply Permutation_cons_app. now symmetry.
Qed.

End Aggregation.

(** What the two filters keep, for entries of any type: each list holds
    the entries of its own type, no entry is in both, and the lists make
    up the Snapshot exactly when every entry has one of the two types. *)
Lemma derive_partition (S : list Item) :
  (forall e, In e (incomeItems (derive S)) <-> In e S /\ type e = "income") /\
  (forall e, In e (expenseItems (derive S)) <-> In e S /\ type e = "expense") /\
  (forall e, ~ (In e (incomeItems (derive S)) /\
                In e (expenseItems (derive S)))) /\
  (Permutation (incomeItems (derive S) ++ expenseItems (derive S)) S
   <-> well_typed S).
Proof.
  split; [intro e; apply in_incomeItems|].
  split; [intro e; apply in_expenseItems|].
  split.
  - intros e [Hi He].
    apply in_incomeItems in Hi. apply in_expenseItems in He.
    destruct Hi as [_ Hi], He as [_ He]. congruence.
  - split; [|apply partition_perm].
    intros HP. apply partition_length_eq.
    apply Permutation_length in HP. now rewrite length_app in HP.
Qed.

(** C2.  For every Snapshot, [derive] partitions it totally and
    exclusively: every entry is in [incomeItems] when its type is income
    and in [expenseItems] otherwise, the two lists together are the
    Snapshot, and they share no entry. *)
Theorem derive_partitions_snapshot (S : list Item) (Hdom : well_typed S) :
  partition_as_specified S /\
  (forall e, In e S ->
     (In e (incomeItems (derive S)) /\ ~ In e (expenseItems (derive S)))
     \/ (In e (expenseItems (derive S)) /\ ~ In e (incomeItems (derive S)))).
Proof.
  destruct (derive_partition S) as (Hi & He & Hx & Hp).
  assert (Hdom' := Hdom). unfold well_typed in Hdom'.
  rewrite Forall_forall in Hdom'.
  split; [split; [|split]|].
  - intros e Hin. destruct (type e =? "income") eqn:E.
    + apply Hi. split; [exact Hin | now apply String.eqb_eq].
    + apply He. split; [exact Hin|].
      destruct (Hdom' e Hin) as [Ht|Ht]; [|exact Ht].
      rewrite Ht in E. discriminate E.
  - now apply Hp.
  - exact Hx.
  - intros e Hin. destruct (Hdom' e Hin) as [Ht|Ht].
    + left. split; [apply Hi; now split|].
      intro H. apply (Hx e). split; [apply Hi; now split | exact H].
    + right. split; [apply He; now split|].
      intro H. apply (Hx e). split; [exact H | apply He; now split].
Qed.

Lemma derive_partitions_snapshot_witness :
  well_typed (items (app (run scenario_events (initial_world None [])))) /\
  partition_as_specified
    (items (app (run scenario_events (initial_world None [])))).
Proof.
  assert (Hd : well_typed
                 (items (app (run scenario_events (initial_world None [])))))
    by (vm_compute; constructor;
        [right; reflexivity | constructor; [left; reflexivity | constructor]]).
  split; [exact Hd|].
  exact (proj1 (derive_partitions_snapshot _ Hd)).
Defined.

(** C3.  [totalIncome] is the sum of the amounts of the entries of type
    income, [totalExpenses] that of the entries of type expense (amounts
    added in Snapshot order, starting from 0), and [balance] is
    [totalIncome] minus [totalExpenses]. *)
Theorem derive_totals (S : list Item) :
  totalIncome (derive S) = sum_amounts "income" S /\
  totalExpenses (derive S) = sum_amounts "expense" S /\
  balance (derive S)
  = (totalIncome (derive S) - totalExpenses (derive S))%float.
Proof.
  unfold derive, reduce_amounts, sum_amounts; simpl.
  rewrite !reduce_filter. repeat split.
Qed.

(** * Handlers and the event loop *)

Ltac unfold_handlers :=
  unfold step, settle, run_handler, store_apply,
    AddItemForm.handleSubmit, handleAddItem, handleAddItem_resume,
    handleDeleteItem, handleDeleteItem_resume, onSnapshot_next,
    onSnapshot_error, dataFetchingEffect, dataFetchingCleanup, initEffect,
    authCallback, authCallback_resume, await, send, alert, console_error,
    setDb, setAuth, setUserId, setIsAuthReady, setItems, setLoading, setError,
    try_finally, try_catch, bind, ret, throw, get, modify.

Ltac no_match x :=
  lazymatch x with
  | context [match _ with _ => _ end] => fail
  | _ => idtac
  end.

(** Case analysis on a scrutinee that is not itself a case analysis. *)
Ltac break_match :=
  match goal with
  | |- context [match ?x with _ => _ end] => no_match x; destruct x eqn:?
  end.

Ltac crush_step := unfold_handlers; simpl; repeat (break_match; simpl).

Lemma append_assoc (a b c : string) :
  ((a ++ b) ++ c = a ++ (b ++ c))%string.
Proof. induction a as [|x a IH]; simpl; [reflexivity | now rewrite IH]. Qed.

Lemma eqb_append_l (a b c : string) :
  ((a ++ b)%string =? (a ++ c)%string) = (b =? c).
Proof.
  induction a as [|x a IH]; simpl; [reflexivity|].
  now rewrite Ascii.eqb_refl.
Qed.

Lemma docPath_collectionPath (w : World) (i : string) :
  docPath w i = (collectionPath w ++ "/" ++ i)%string.
Proof. unfold docPath, collectionPath. now rewrite !append_assoc. Qed.

(** The store deletes by identifier. *)
Lemma store_delete_docPath (w : World) (i : string) (docs : list Doc) :
  store_delete (collectionPath w) (docPath w i) docs
  = filter (fun d => negb (doc_id d =? i)) docs.
Proof.
  unfold store_delete. apply filter_ext. intro d.
  rewrite docPath_collectionPath.
  now rewrite eqb_append_l, (eqb_append_l "/").
Qed.

Lemma store_delete_absent (w : World) (i : string) (docs : list Doc) :
  forall d, In d (store_delete (collectionPath w) (docPath w i) docs) ->
            doc_id d <> i.
Proof.
  intros d Hd. rewrite store_delete_docPath in Hd.
  apply filter_In in Hd. destruct Hd as [_ Hd].
  apply negb_true_iff in Hd. now apply String.eqb_neq.
Qed.

Lemma store_delete_idem (w : World) (i : string) (docs : list Doc) :
  store_delete (collectionPath w) (docPath w i)
    (store_delete (collectionPath w) (docPath w i) docs)
  = store_delete (collectionPath w) (docPath w i) docs.
Proof.
  rewrite !store_delete_docPath.
  induction docs as [|d docs IH]; simpl; [reflexivity|].
  destruct (doc_id d =? i) eqn:E; simpl; [exact IH|].
  rewrite E; simpl. now rewrite IH.
Qed.

(** The only event that writes [items] is the Snapshot callback. *)
Lemma step_items (w : World) (ev : event) :
  items (app (step w ev))
  = match ev with
    | SnapshotNext =>
        if listening w
        then map item_of_doc (query_orderBy_createdAt_desc (remote w))
        else items (app w)
    | _ => items (app w)
    end.
Proof. destruct ev; crush_step; reflexivity. Qed.

Lemma run_app (evs1 evs2 : list event) (w : World) :
  run (evs1 ++ evs2) w = run evs2 (run evs1 w).
Proof. unfold run. apply fold_left_app. Qed.

Lemma run_items_no_snapshot (evs : list event) :
  forall w, forallb (fun ev => negb (is_snapshot ev)) evs = true ->
            items (app (run evs w)) = items (app w).
Proof.
  induction evs as [|ev evs IH]; intros w H; simpl in *; [reflexivity|].
  apply andb_true_iff in H. destruct H as [Hev H].
  rewrite (IH _ H), step_items. destruct ev; try reflexivity; discriminate.
Qed.

(** ** Validation of an add request *)

(** The smallest amount the markup lets through is above zero. *)
Lemma min_is_positive (x : JS.number) :
  (JS.parseFloat AddItemForm.min <=? x)%float = true ->
  (0 <? x)%float = true.
Proof.
  rewrite leb_spec, ltb_spec.
  change (Prim2SF 0) with (S754_zero false).
  replace (Prim2SF (JS.parseFloat AddItemForm.min))
    with (S754_finite false 5764607523034235 (-59)) by (vm_compute; reflexivity).
  destruct (Prim2SF x) as [[|]|[|]| |[|] m e]; simpl;
    try discriminate; reflexivity.
Qed.

(** What a form that passes the markup's constraints holds: two non-empty
    fields and an amount that parses to a number above zero. *)
Lemma valid_form_fields (form : AddItemForm.State) :
  AddItemForm.checkValidity form = true ->
  JS.truthy (AddItemForm.description form) = true /\
  JS.truthy (AddItemForm.amount form) = true /\
  not_positive (JS.parseFloat (AddItemForm.amount form)) = false.
Proof.
  unfold AddItemForm.checkValidity, not_positive. intro H.
  apply andb_true_iff in H. destruct H as [Hd H].
  split; [exact Hd|].
  destruct (AddItemForm.read_number (AddItemForm.amount form))
    as [[[neg m] e]|] eqn:E; [|discriminate H].
  apply andb_true_iff in H. destruct H as [Hmin _].
  split.
  - destruct (AddItemForm.amount form); [discriminate E | reflexivity].
  - rewrite (min_is_positive _ Hmin). reflexivity.
Qed.



(** ** The database handle is not there yet *)

(** C10.  While [db] is [null], a call of [handleAddItem] or of
    [handleDeleteItem] returns at once and leaves everything as it was: no
    write is sent, no error is raised or shown, nothing is logged, and
    neither [loading] nor any other state changes. *)
Theorem db_null_noop (w : World) (item : Payload.t) (i : string)
    (Hdb : db (app w) = None) :
  handleAddItem item w = (Normal tt, w) /\
  handleDeleteItem i w = (Normal tt, w) /\
  step w (AddItem item) = w /\
  step w (DeleteItem i) = w.
Proof.
  unfold_handlers. rewrite Hdb. simpl. repeat split.
Qed.

Lemma db_null_noop_witness :
  db (app (initial_world None [paycheck_doc])) = None /\
  step (initial_world None [paycheck_doc]) (AddItem rent)
  = initial_world None [paycheck_doc] /\
  step (initial_world None [paycheck_doc]) (DeleteItem "a1")
  = initial_world None [paycheck_doc].
Proof.
  split; [reflexivity|].
  destruct (db_null_noop (initial_world None [paycheck_doc]) rent "a1" eq_refl)
    as (_ & _ & Ha & Hd).
  split; [exact Ha | exact Hd].
Defined.

(** ** A write the store refuses *)

Lemma step_error_sticky (w : World) (ev : event) :
  JS.truthy_opt (error (app w)) = true ->
  JS.truthy_opt (error (app (step w ev))) = true.
Proof.
  intro H. destruct ev; crush_step; try exact H; reflexivity.
Qed.

Lemma run_error_sticky (evs : list event) :
  forall w, JS.truthy_opt (error (app w)) = true ->
            JS.truthy_opt (error (app (run evs w))) = true.
Proof.
  induction evs as [|ev evs IH]; intros w H; simpl; [exact H|].
  apply IH, step_error_sticky, H.
Qed.

Lemma error_hides_forms (a : AppState) :
  JS.truthy_opt (error a) = true -> retry_offered a = false.
Proof. unfold retry_offered, render. now intros ->. Qed.

(** C6, as amended.  When the store rejects an add that is in flight, the
    rest of [handleAddItem] shows the write error ["Could not add the
    item."], ends without an uncaught exception, creates no entry (the
    collection is as before), leaves the Snapshot and the handles of the
    local state as they were, and clears [loading]; the add is no longer
    in flight.  The error stays set: from then on the page is the error
    message alone, and whatever happens next it never offers the add forms
    again. *)
Theorem add_rejected (w : World) (n : nat) (path : string) (fields : NewDoc.t)
    (err : string)
    (Hpending : nth_error (pending w) n = Some (AddDoc path fields)) :
  let w' := step w (StoreReply n (Rejected err)) in
  error (app w') = Some "Could not add the item." /\
  loading (app w') = false /\
  remote w' = remote w /\
  items (app w') = items (app w) /\
  db (app w') = db (app w) /\
  auth (app w') = auth (app w) /\
  userId (app w') = userId (app w) /\
  isAuthReady (app w') = isAuthReady (app w) /\
  pending w' = remove_nth n (pending w) /\
  calls w' = calls w /\
  uncaught w' = uncaught w /\
  console w' = ("Error adding document: " ++ err)%string :: console w /\
  render (app w') = ErrorScreen "Could not add the item." /\
  (forall evs, retry_offered (app (run evs w')) = false).
Proof.
  cbv zeta.
  assert (He : error (app (step w (StoreReply n (Rejected err))))
               = Some "Could not add the item.")
    by (unfold_handlers; rewrite Hpending; reflexivity).
  split; [exact He|].
  do 11 (split; [unfold_handlers; rewrite Hpending; reflexivity|]).
  split.
  - unfold render. rewrite He. reflexivity.
  - intro evs. apply error_hides_forms, run_error_sticky.
    rewrite He. reflexivity.
Qed.

Lemma add_rejected_witness :
  let w := step ready_world (AddItem rent) in
  let w' := step w (StoreReply 0 (Rejected "permission-denied")) in
  nth_error (pending w) 0
  = Some (AddDoc "artifacts/default-app-id/public/data/budget-items"
            {| NewDoc.item := rent; NewDoc.createdAt := serverTimestamp;
               NewDoc.authorId := Some "u1" |}) /\
  loading (app w) = true /\
  error (app w') = Some "Could not add the item." /\
  loading (app w') = false /\
  remote w' = [paycheck_doc] /\
  pending w' = [] /\
  retry_offered (app (run [SnapshotNext; AddItem rent] w')) = false.
Proof.
  cbv zeta.
  split; [reflexivity|]. split; [reflexivity|].
  destruct (add_rejected (step ready_world (AddItem rent)) 0
              "artifacts/default-app-id/public/data/budget-items"
              {| NewDoc.item := rent; NewDoc.createdAt := serverTimestamp;
                 NewDoc.authorId := Some "u1" |}
              "permission-denied" eq_refl)
    as (He & Hl & Hr & _ & _ & _ & _ & _ & Hp & _ & _ & _ & _ & Hn).
  split; [exact He|]. split; [exact Hl|].
  split; [rewrite Hr; reflexivity|].
  split; [rewrite Hp; reflexivity|].
  exact (Hn [SnapshotNext; AddItem rent]).
Defined.

(** C6, as stated, fails: before the add the page offers the forms; after
    the store has rejected it the page is the error message alone, so no
    retry can be attempted from it. *)
Lemma no_retry_after_rejected_add :
  retry_offered (app ready_world) = true /\
  render (app (run [AddItem rent; StoreReply 0 (Rejected "permission-denied")]
                 ready_world))
  = ErrorScreen "Could not add the item." /\
  ~ add_failure_as_specified (step ready_world (AddItem rent)) 0
      "permission-denied".
Proof.
  split; [reflexivity|]. split; [reflexivity|].
  intros (_ & _ & _ & _ & H). discriminate H.
Qed.

(** ** The busy flag *)

(** C4, as amended.  A call of [handleAddItem] with the database handle
    present raises [loading] before the write is sent, and the settlement
    of an add lowers it; in between, only the start-up effect and the
    [onSnapshot] callbacks may lower it.  [handleDeleteItem] and the
    settlement of a delete never touch [loading]: a delete in flight is not
    reported as busy. *)
Theorem loading_tracks_add (w : World) (item : Payload.t) (i : string)
    (n : nat) (r : Reply) (ev : event) :
  (db (app w) <> None ->
     loading (app (step w (AddItem item))) = true /\
     in_flight (step w (AddItem item))) /\
  ((exists path fields, nth_error (pending w) n = Some (AddDoc path fields)) ->
     loading (app (step w (StoreReply n r))) = false) /\
  (lowers_loading w ev = false -> loading (app w) = true ->
     loading (app (step w ev)) = true) /\
  loading (app (step w (DeleteItem i))) = loading (app w) /\
  ((exists path, nth_error (pending w) n = Some (DeleteDoc path)) ->
     loading (app (step w (StoreReply n r))) = loading (app w)).
Proof.
  split; [|split; [|split; [|split]]].
  - intro Hdb. unfold in_flight. unfold_handlers.
    destruct (db (app w)); [|congruence]. simpl. split; [reflexivity|].
    destruct (pending w); discriminate.
  - intros (path & fields & H). unfold_handlers. rewrite H.
    destruct r; reflexivity.
  - intros Hev Hl. destruct ev; simpl in Hev; try discriminate;
      crush_step; try assumption; try reflexivity; try discriminate.
  - unfold_handlers. destruct (db (app w)); reflexivity.
  - intros (path & H). unfold_handlers. rewrite H. destruct r; reflexivity.
Qed.

Lemma loading_tracks_add_witness :
  loading (app (step ready_world (AddItem rent))) = true /\
  in_flight (step ready_world (AddItem rent)) /\
  loading (app (step (step ready_world (AddItem rent))
                  (StoreReply 0 (Fulfilled "a2" 20)))) = false /\
  loading (app (step (step ready_world (AddItem rent)) (DeleteItem "a1")))
  = true.
Proof.
  destruct (loading_tracks_add ready_world rent "a1" 0 (Fulfilled "a2" 20)
              (DeleteItem "a1")) as (Ha & _).
  destruct (Ha ltac:(discriminate)) as [Hl Hf].
  destruct (loading_tracks_add (step ready_world (AddItem rent)) rent "a1" 0
              (Fulfilled "a2" 20) (DeleteItem "a1")) as (_ & Hs & Hk & _).
  split; [exact Hl|]. split; [exact Hf|].
  split.
  - apply Hs. do 2 eexists. reflexivity.
  - apply Hk; [reflexivity | exact Hl].
Defined.

(** C4, as stated, fails.  After the first Snapshot [loading] is [false],
    and a delete sent then is in flight while [loading] stays [false]; and
    a Snapshot delivered while an add is in flight lowers [loading] before
    the add has settled. *)
Lemma in_flight_not_busy :
  pending (step ready_world (DeleteItem "a1"))
  = [DeleteDoc "artifacts/default-app-id/public/data/budget-items/a1"] /\
  loading (app (step ready_world (DeleteItem "a1"))) = false /\
  ~ busy_while_in_flight (step ready_world (DeleteItem "a1")) /\
  ~ busy_while_in_flight (run [AddItem rent; SnapshotNext] ready_world).
Proof.
  split; [reflexivity|]. split; [reflexivity|].
  split; intro H.
  - assert (Hf : in_flight (step ready_world (DeleteItem "a1")))
      by (unfold in_flight; discriminate).
    specialize (H Hf). discriminate H.
  - assert (Hf : in_flight (run [AddItem rent; SnapshotNext] ready_world))
      by (unfold in_flight; discriminate).
    specialize (H Hf). discriminate H.
Qed.

(** ** The subscription and the sign-in *)

(** C5, as amended.  The data-fetching effect attaches the listener (and
    raises [loading]) only when the database handle is there, the sign-in
    handshake is over and a session identifier is known; otherwise it
    returns without doing anything. *)
Theorem subscription_gate (w : World) :
  dataFetchingEffect w
  = (if JS.truthy_obj (db (app w)) && isAuthReady (app w)
        && JS.truthy_opt (userId (app w))
     then (Normal true, with_listening true (snd (setLoading true w)))
     else (Normal false, w)) /\
  (listening w = false ->
   (subscribes w <->
    db (app w) <> None /\ isAuthReady (app w) = true /\
    JS.truthy_opt (userId (app w)) = true)).
Proof.
  split.
  - unfold_handlers.
    destruct (db (app w)), (isAuthReady (app w)),
      (JS.truthy_opt (userId (app w))); reflexivity.
  - intro Hl. unfold subscribes. unfold_handlers.
    destruct (db (app w)), (isAuthReady (app w)),
      (JS.truthy_opt (userId (app w))); simpl; rewrite ?Hl;
      split; intro H; try discriminate; try reflexivity;
      try (destruct H as (H1 & H2 & H3); congruence);
      repeat split; discriminate.
Qed.

Lemma subscription_gate_witness :
  listening signin_failed_world = false /\
  (subscribes signin_failed_world <->
   db (app signin_failed_world) <> None /\
   isAuthReady (app signin_failed_world) = true /\
   JS.truthy_opt (userId (app signin_failed_world)) = true).
Proof.
  split; [reflexivity|].
  exact (proj2 (subscription_gate signin_failed_world) eq_refl).
Defined.

(** C5, as stated, fails: with the database handle present and no session
    identifier the effect attaches no listener, whether the handshake is
    still running or has failed. *)
Lemma no_subscription_without_user :
  db (app signin_failed_world) = Some firestoreDb /\
  isAuthReady (app signin_failed_world) = true /\
  userId (app signin_failed_world) = None /\
  listening (step signin_failed_world DataEffect) = false /\
  listening (step (run [Mount SdkReady] (initial_world None [paycheck_doc]))
               DataEffect) = false /\
  ~ subscription_ungated signin_failed_world.
Proof.
  repeat split; try reflexivity.
  intro H. specialize (H ltac:(discriminate) eq_refl). discriminate H.
Qed.

(** ** Who writes the Snapshot *)

(** C7.  [handleAddItem] never writes [items]: neither its call nor its
    settlement changes the Snapshot, which stays as it was through every
    sequence of events that holds no Snapshot delivery; the [onSnapshot]
    callback is the only event that writes it. *)
Theorem add_leaves_snapshot (w : World) (item : Payload.t)
    (evs : list event)
    (Hevs : forallb (fun ev => negb (is_snapshot ev)) evs = true) :
  items (app (step w (AddItem item))) = items (app w) /\
  (forall n newId serverTime,
     items (app (step (step w (AddItem item))
                   (StoreReply n (Fulfilled newId serverTime))))
     = items (app w)) /\
  items (app (run evs (step w (AddItem item)))) = items (app w) /\
  (forall w0 ev,
     items (app (step w0 ev)) <> items (app w0) -> ev = SnapshotNext).
Proof.
  split; [apply step_items|].
  split; [intros; now rewrite !step_items|].
  split; [now rewrite run_items_no_snapshot, step_items|].
  intros w0 ev H. rewrite step_items in H.
  destruct ev; congruence.
Qed.

Lemma add_leaves_snapshot_witness :
  items (app (run [StoreReply 0 (Fulfilled "a2" 20); DeleteItem "a1"]
                (step ready_world (AddItem rent))))
  = items (app ready_world) /\
  remote (run [StoreReply 0 (Fulfilled "a2" 20)]
            (step ready_world (AddItem rent)))
  <> remote ready_world.
Proof.
  split; [|discriminate].
  exact (proj1 (proj2 (proj2
    (add_leaves_snapshot ready_world rent
       [StoreReply 0 (Fulfilled "a2" 20); DeleteItem "a1"] eq_refl)))).
Defined.

(** * Ordering of the Snapshot *)

Section Ordering.

Lemma insert_desc_perm (d : Doc) (l : list Doc) :
  Permutation (insert_desc d l) (d :: l).
Proof.
  induction l as [|x l IH]; simpl; [reflexivity|].
  destruct (_ <=? _)%Z; [reflexivity|].
  rewrite IH. apply perm_swap.
Qed.

(** The ordered query returns every document once: none is dropped and
    none is repeated. *)
Lemma query_perm (docs : list Doc) :
  Permutation (query_orderBy_createdAt_desc docs) docs.
Proof.
  induction docs as [|d docs IH]; simpl; [reflexivity|].
  rewrite insert_desc_perm. now constructor.
Qed.

Lemma insert_desc_sorted (d : Doc) (l : list Doc) :
  docs_sorted_desc l -> docs_sorted_desc (insert_desc d l).
Proof.
  unfold docs_sorted_desc.
  induction l as [|x l IH]; intros Hs; simpl.
  - constructor; constructor.
  - apply StronglySorted_inv in Hs. destruct Hs as [Hs Hx].
    destruct (_ <=? _)%Z eqn:E.
    + apply Z.leb_le in E. constructor.
      * constructor; assumption.
      * constructor; [exact E|].
        eapply Forall_impl; [|exact Hx]. simpl. intros a Ha. lia.
    + apply Z.leb_gt in E. constructor; [now apply IH|].
      eapply Permutation_Forall; [symmetry; apply insert_desc_perm|].
      constructor; [lia | exact Hx].
Qed.

Lemma query_sorted (docs : list Doc) :
  docs_sorted_desc (query_orderBy_createdAt_desc docs).
Proof.
  induction docs as [|d docs IH]; simpl.
  - constructor.
  - now apply insert_desc_sorted.
Qed.

(** The callback keeps the order the store delivers. *)
Lemma map_item_of_doc_sorted (docs : list Doc) :
  docs_sorted_desc docs -> sorted_desc (map item_of_doc docs).
Proof.
  unfold docs_sorted_desc, sorted_desc.
  induction 1 as [|d docs Hs IH Hd]; simpl; constructor; [exact IH|].
  apply Forall_map. exact Hd.
Qed.

Lemma step_sorted (w : World) (ev : event) :
  sorted_desc (items (app w)) -> sorted_desc (items (app (step w ev))).
Proof.
  intro Hs. rewrite step_items.
  destruct ev; try exact Hs.
  destruct (listening w); [|exact Hs].
  apply map_item_of_doc_sorted, query_sorted.
Qed.

Lemma run_sorted (evs : list event) :
  forall w, sorted_desc (items (app w)) ->
            sorted_desc (items (app (run evs w))).
Proof.
  induction evs as [|ev evs IH]; intros w Hs; simpl; [exact Hs|].
  apply IH, step_sorted, Hs.
Qed.

Lemma sorted_nth (l : list Item) :
  sorted_desc l ->
  forall i j a b, i < j -> nth_error l i = Some a -> nth_error l j = Some b ->
                  (createdAt b <= createdAt a)%Z.
Proof.
  unfold sorted_desc.
  induction 1 as [|x l Hs IH Hx]; intros i j a b Hij Ha Hb.
  - destruct i; discriminate.
  - destruct j as [|j]; [lia|]. simpl in Hb.
    destruct i as [|i]; simpl in Ha.
    + injection Ha as <-. apply nth_error_In in Hb.
      rewrite Forall_forall in Hx. now apply Hx.
    + apply (IH i j); [lia | assumption | assumption].
Qed.

Lemma sorted_newest_first (l : list Item) :
  sorted_desc l -> newest_first l.
Proof.
  intros Hs i j a b Ha Hb Hlt.
  destruct (Nat.lt_trichotomy i j) as [H|[H|H]]; [exact H| |].
  - subst j. rewrite Ha in Hb. injection Hb as <-. lia.
  - pose proof (sorted_nth l Hs j i b a H Hb Ha). lia.
Qed.

End Ordering.

(** C8.  In every state the session can reach, whatever the store held at
    the start and whatever events came (change events of this or of other
    sessions included), the Snapshot in [items] is sorted by [createdAt]
    descending: of two entries, the one with the larger [createdAt] stands
    first.  The callback keeps the order of the documents it is given, and
    each delivered Snapshot holds the documents of the store's ordered
    query, each once, in the order of the query. *)
Theorem snapshot_sorted (appId : option string) (docs : list Doc)
    (evs : list event) :
  sorted_desc (items (app (run evs (initial_world appId docs)))) /\
  newest_first (items (app (run evs (initial_world appId docs)))) /\
  (forall w delivered,
     docs_sorted_desc delivered ->
     sorted_desc (items (app (run_handler (onSnapshot_next delivered) w)))) /\
  (let w := run evs (initial_world appId docs) in
   items (app (step w SnapshotNext))
   = if listening w
     then map item_of_doc (query_orderBy_createdAt_desc (remote w))
     else items (app w)) /\
  Permutation (query_orderBy_createdAt_desc docs) docs.
Proof.
  assert (Hs : sorted_desc (items (app (run evs (initial_world appId docs))))).
  { apply run_sorted. simpl. constructor. }
  split; [exact Hs|].
  split; [now apply sorted_newest_first|].
  split; [intros w delivered Hd; now apply map_item_of_doc_sorted|].
  split; [exact (step_items _ SnapshotNext) | apply query_perm].
Qed.

Lemma snapshot_sorted_witness :
  docs_sorted_desc [gift "s2" 12; paycheck_doc; gift "s1" 7] /\
  sorted_desc
    (items (app (run_handler
                   (onSnapshot_next [gift "s2" 12; paycheck_doc; gift "s1" 7])
                   ready_world))) /\
  sorted_desc (items (app (run scenario_events (initial_world None [])))).
Proof.
  assert (Hd : docs_sorted_desc [gift "s2" 12; paycheck_doc; gift "s1" 7]).
  { unfold docs_sorted_desc. repeat constructor; simpl; lia. }
  destruct (snapshot_sorted None [] scenario_events) as (Hs & _ & Hc & _).
  split; [exact Hd|]. split; [exact (Hc ready_world _ Hd) | exact Hs].
Defined.

(** * Deleting twice *)

Lemma nth_error_snoc {A : Type} (l : list A) (x : A) :
  nth_error (l ++ [x]) (List.length l) = Some x.
Proof. induction l as [|y l IH]; simpl; [reflexivity | exact IH]. Qed.

Lemma remove_nth_snoc {A : Type} (l : list A) (x : A) :
  remove_nth (List.length l) (l ++ [x]) = l.
Proof.
  unfold remove_nth. induction l as [|y l IH]; simpl; [reflexivity|].
  simpl in IH. now rewrite IH.
Qed.

(** A delete sent with the handle present and fulfilled by the store. *)
Lemma delete_fulfilled (w : World) (i newId : string) (serverTime : Z) :
  db (app w) <> None ->
  step (step w (DeleteItem i))
    (StoreReply (List.length (pending w)) (Fulfilled newId serverTime))
  = with_calls (DeleteDoc (docPath w i) :: calls w) (pending w)
      (with_remote (store_delete (collectionPath w) (docPath w i) (remote w))
         w).
Proof.
  intro Hdb. unfold_handlers. destruct (db (app w)); [|congruence]. simpl.
  rewrite nth_error_snoc, remove_nth_snoc. reflexivity.
Qed.

(** Neither part of [handleDeleteItem] lets an exception out. *)
Lemma handleDeleteItem_completes (w : World) (i : string) (r : Reply) :
  fst (handleDeleteItem i w) = Normal tt /\
  fst (handleDeleteItem_resume r w) = Normal tt.
Proof.
  unfold_handlers. split.
  - destruct (db (app w)); reflexivity.
  - destruct r; reflexivity.
Qed.

Lemma snapshot_items_from_remote (w : World) (e : Item) :
  In e (items (app (step w SnapshotNext))) ->
  listening w = true ->
  exists d, In d (remote w) /\ e = item_of_doc d.
Proof.
  rewrite step_items. intros He Hl. rewrite Hl in He.
  apply in_map_iff in He. destruct He as (d & <- & Hd).
  exists d. split; [|reflexivity].
  eapply Permutation_in; [apply query_perm | exact Hd].
Qed.

(** C9.  Deleting the same identifier twice in a row: neither call lets an
    exception out of the Gateway (whatever the store answers); the second
    delete finds nothing to remove, the store fulfils it all the same and
    the Gateway shows no error and changes no state; the collection holds
    no document with that identifier, and neither does the Snapshot the
    listener receives next. *)
Theorem delete_idempotent (w : World) (i : string) (id1 id2 : string)
    (t1 t2 : Z) (Hdb : db (app w) <> None) :
  let n := List.length (pending w) in
  let w1 := step (step w (DeleteItem i)) (StoreReply n (Fulfilled id1 t1)) in
  let w2 := step (step w1 (DeleteItem i)) (StoreReply n (Fulfilled id2 t2)) in
  (forall w0 r, fst (handleDeleteItem i w0) = Normal tt /\
                fst (handleDeleteItem_resume r w0) = Normal tt) /\
  uncaught w2 = uncaught w /\
  remote w2 = remote w1 /\
  app w2 = app w /\
  console w2 = console w /\
  pending w2 = pending w /\
  (forall d, In d (remote w2) -> doc_id d <> i) /\
  (listening w2 = true ->
   forall e, In e (items (app (step w2 SnapshotNext))) -> id e <> i).
Proof.
  cbv zeta. rewrite (delete_fulfilled w i id1 t1 Hdb).
  set (w1 := with_calls _ _ _).
  assert (Hdb1 : db (app w1) <> None) by exact Hdb.
  change (List.length (pending w)) with (List.length (pending w1)).
  rewrite (delete_fulfilled w1 i id2 t2 Hdb1).
  assert (Hrem : store_delete (collectionPath w1) (docPath w1 i) (remote w1)
                 = remote w1).
  { subst w1. simpl. apply (store_delete_idem w). }
  split; [intros; apply handleDeleteItem_completes|].
  split; [reflexivity|].
  split; [simpl; exact Hrem|].
  split; [destruct w as [[]]; reflexivity|].
  split; [reflexivity|].
  split; [reflexivity|].
  assert (Habs : forall d, In d (store_delete (collectionPath w1) (docPath w1 i)
                                   (remote w1)) -> doc_id d <> i)
    by apply store_delete_absent.
  split; [exact Habs|].
  intros Hl e He.
  destruct (snapshot_items_from_remote _ e He Hl) as (d & Hd & ->).
  simpl. apply Habs. exact Hd.
Qed.

Lemma delete_idempotent_witness :
  let w1 := run [DeleteItem "a1"; StoreReply 0 (Fulfilled "" 0)] ready_world in
  let w2 := run [DeleteItem "a1"; StoreReply 0 (Fulfilled "" 0)] w1 in
  db (app ready_world) <> None /\
  In paycheck_doc (remote ready_world) /\
  remote w1 = [] /\
  remote w2 = remote w1 /\
  app w2 = app ready_world /\
  uncaught w2 = [] /\
  items (app (step w2 SnapshotNext)) = [].
Proof.
  cbv zeta.
  assert (Hdb : db (app ready_world) <> None) by discriminate.
  split; [exact Hdb|].
  split; [left; reflexivity|].
  split; [reflexivity|].
  destruct (delete_idempotent ready_world "a1" "" "" 0 0 Hdb)
    as (_ & Hu & Hr & Ha & _).
  split; [exact Hr|]. split; [exact Ha|]. split; [exact Hu|].
  reflexivity.
Defined.

(** * The scenarios of the specification, run on the model *)

Example empty_collection :
  derive []
  = {| totalIncome := 0%float; totalExpenses := 0%float; balance := 0%float;
       incomeItems := []; expenseItems := [] |}.
Proof. reflexivity. Qed.

Example paycheck_then_groceries :
  let w := run scenario_events (initial_world None []) in
  map description (items (app w)) = ["Groceries"; "Paycheck"] /\
  totalIncome (derive (items (app w))) = 1000%float /\
  totalExpenses (derive (items (app w))) = 150.5%float /\
  balance (derive (items (app w))) = 849.5%float.
Proof. repeat split. Qed.

Example two_sessions_add_income :
  let session := [Mount SdkReady; AuthStateChanged (Some "u1"); DataEffect] in
  let w12 := run (session ++ [RemoteInsert (gift "s1" 7);
                              RemoteInsert (gift "s2" 7); SnapshotNext])
               (initial_world None []) in
  let w21 := run (session ++ [RemoteInsert (gift "s2" 7);
                              RemoteInsert (gift "s1" 7); SnapshotNext])
               (initial_world None []) in
  totalIncome (derive (items (app w12))) = 200%float /\
  totalIncome (derive (items (app w21))) = 200%float.
Proof. repeat split. Qed.

Example parseFloat_white_space :
  JS.parseFloat (String (ascii_of_nat 194) (String (ascii_of_nat 160) "5"))
  = 5%float /\
  JS.parseFloat (String (ascii_of_nat 239) (String (ascii_of_nat 187)
                   (String (ascii_of_nat 191) " -2.5")))
  = (-2.5)%float.
Proof. repeat split. Qed.

Example checkValidity_examples :
  let form a := {| AddItemForm.description := "Rent";
                   AddItemForm.amount := a |} in
  map (fun a => AddItemForm.checkValidity (form a))
    ["150.50"; "1000"; "0.01"; ".5"; "1e2"] = [true; true; true; true; true] /\
  map (fun a => AddItemForm.checkValidity (form a))
    [""; "0"; "-5"; "0.009"; "0.015"; "5."; "abc"; " 5"]
  = [false; false; false; false; false; false; false; false] /\
  AddItemForm.checkValidity {| AddItemForm.description := "";
                               AddItemForm.amount := "5" |} = false.
Proof. repeat split. Qed.

Example parseFloat_examples :
  JS.parseFloat "1000" = 1000%float /\
  JS.parseFloat "150.50" = 150.5%float /\
  JS.parseFloat "-5" = (-5)%float /\
  JS.parseFloat "0" = 0%float /\
  JS.parseFloat "  .5e1x" = 5%float /\
  JS.parseFloat "0.1" = 0x1.999999999999ap-4%float /\
  JS.parseFloat "9007199254740993" = 9007199254740992%float /\
  JS.parseFloat "1e400" = infinity /\
  JS.parseFloat "4.9e-324" = 0x1p-1074%float /\
  JS.parseFloat "abc" = nan.
Proof. repeat split. Qed.

(** * Further properties of the aggregation *)

Lemma filter_sorted (f : Item -> bool) (l : list Item) :
  sorted_desc l -> sorted_desc (filter f l).
Proof.
  unfold sorted_desc.
  induction 1 as [|x l Hs IH Hx]; simpl; [constructor|].
  destruct (f x); [|exact IH].
  constructor; [exact IH|].
  rewrite Forall_forall in *. intros y Hy.
  apply Hx. apply filter_In in Hy. tauto.
Qed.

(** X1.  An entry whose type is neither ["income"] nor ["expense"] counts
    for nothing: with or without it, [derive] returns the same totals, the
    same balance and the same two lists. *)
Theorem derive_ignores_other_types (S1 S2 : list Item) (e : Item)
    (Hi : type e <> "income") (He : type e <> "expense") :
  derive (S1 ++ e :: S2) = derive (S1 ++ S2).
Proof.
  apply String.eqb_neq in Hi. apply String.eqb_neq in He.
  unfold derive. rewrite !filter_app. simpl. rewrite Hi, He.
  rewrite <- !filter_app. reflexivity.
Qed.

Lemma derive_ignores_other_types_witness :
  derive (item_of_doc paycheck_doc :: savings_entry :: [])
  = derive [item_of_doc paycheck_doc].
Proof.
  apply (derive_ignores_other_types [item_of_doc paycheck_doc] []
           savings_entry); discriminate.
Defined.

(** X2.  Both lists keep the order of the Snapshot: when the Snapshot is
    newest first, so are [incomeItems] and [expenseItems]. *)
Theorem partitions_keep_order (S : list Item) (Hs : sorted_desc S) :
  sorted_desc (incomeItems (derive S)) /\
  sorted_desc (expenseItems (derive S)) /\
  newest_first (incomeItems (derive S)) /\
  newest_first (expenseItems (derive S)).
Proof.
  assert (Hi : sorted_desc (incomeItems (derive S)))
    by (apply filter_sorted, Hs).
  assert (He : sorted_desc (expenseItems (derive S)))
    by (apply filter_sorted, Hs).
  repeat split; try assumption; now apply sorted_newest_first.
Qed.

Lemma partitions_keep_order_witness :
  sorted_desc (incomeItems (derive (items (app
     (run scenario_events (initial_world None [])))))).
Proof.
  apply (partitions_keep_order
           (items (app (run scenario_events (initial_world None []))))).
  apply run_sorted. constructor.
Defined.

(** X3.  The totals are running sums, left to right: an entry put at the
    end of the Snapshot adds its amount to the total of its own type and
    leaves the other total (and the other list) as it was. *)
Theorem derive_append_entry (S : list Item) (e : Item) :
  totalIncome (derive (S ++ [e]))
  = (if type e =? "income"
     then (totalIncome (derive S) + amount e)%float
     else totalIncome (derive S)) /\
  totalExpenses (derive (S ++ [e]))
  = (if type e =? "expense"
     then (totalExpenses (derive S) + amount e)%float
     else totalExpenses (derive S)) /\
  incomeItems (derive (S ++ [e]))
  = incomeItems (derive S) ++ (if type e =? "income" then [e] else []) /\
  expenseItems (derive (S ++ [e]))
  = expenseItems (derive S) ++ (if type e =? "expense" then [e] else []).
Proof.
  unfold derive, reduce_amounts; simpl. rewrite !filter_app; simpl.
  destruct (type e =? "income"), (type e =? "expense");
    rewrite ?fold_left_app, ?app_nil_r; simpl; repeat split.
Qed.

Lemma add_nan_l (y : JS.number) : (nan + y)%float = nan.
Proof.
  rewrite <- (SF2Prim_Prim2SF (nan + y)), add_spec.
  change (Prim2SF nan) with S754_nan. reflexivity.
Qed.

Lemma add_nan_r (x : JS.number) : (x + nan)%float = nan.
Proof.
  rewrite <- (SF2Prim_Prim2SF (x + nan)), add_spec.
  change (Prim2SF nan) with S754_nan.
  unfold SF64add, SFadd. destruct (Prim2SF x); reflexivity.
Qed.

Lemma sub_nan_l (y : JS.number) : (nan - y)%float = nan.
Proof.
  rewrite <- (SF2Prim_Prim2SF (nan - y)), sub_spec.
  change (Prim2SF nan) with S754_nan. reflexivity.
Qed.

Lemma sub_nan_r (x : JS.number) : (x - nan)%float = nan.
Proof.
  rewrite <- (SF2Prim_Prim2SF (x - nan)), sub_spec.
  change (Prim2SF nan) with S754_nan.
  unfold SF64sub, SFsub. destruct (Prim2SF x); reflexivity.
Qed.

Lemma reduce_from_nan (l : list Item) :
  fold_left (fun sum item => (sum + amount item)%float) l nan = nan.
Proof.
  induction l as [|x l IH]; simpl; [reflexivity|].
  now rewrite add_nan_l.
Qed.

Lemma reduce_with_nan (l : list Item) (e : Item) :
  In e l -> amount e = nan ->
  forall acc,
    fold_left (fun sum item => (sum + amount item)%float) l acc = nan.
Proof.
  intros Hin Hn. induction l as [|x l IH]; intros acc; [destruct Hin|].
  simpl. destruct Hin as [->|Hin].
  - rewrite Hn, add_nan_r. apply reduce_from_nan.
  - now apply IH.
Qed.

(** X4.  One entry whose amount is [NaN] makes the total of its type
    [NaN], and the balance with it, whatever the other entries are. *)
Theorem nan_amount_poisons_totals (S : list Item) (e : Item)
    (Hin : In e S) (Hn : amount e = nan) :
  (type e = "income" ->
   totalIncome (derive S) = nan /\ balance (derive S) = nan) /\
  (type e = "expense" ->
   totalExpenses (derive S) = nan /\ balance (derive S) = nan).
Proof.
  split; intro Ht.
  - assert (H : totalIncome (derive S) = nan).
    { unfold derive, reduce_amounts; simpl.
      apply (reduce_with_nan _ e); [|exact Hn].
      apply filter_In. split; [exact Hin | now apply String.eqb_eq]. }
    split; [exact H|].
    change (balance (derive S))
      with (totalIncome (derive S) - totalExpenses (derive S))%float.
    rewrite H. apply sub_nan_l.
  - assert (H : totalExpenses (derive S) = nan).
    { unfold derive, reduce_amounts; simpl.
      apply (reduce_with_nan _ e); [|exact Hn].
      apply filter_In. split; [exact Hin | now apply String.eqb_eq]. }
    split; [exact H|].
    change (balance (derive S))
      with (totalIncome (derive S) - totalExpenses (derive S))%float.
    rewrite H. apply sub_nan_r.
Qed.

Lemma nan_amount_poisons_totals_witness :
  balance (derive [item_of_doc paycheck_doc;
                   entry_of "n1" 3 {| Payload.description := "Bus";
                                      Payload.amount := JS.parseFloat " ";
                                      Payload.type := "expense" |} None])
  = nan.
Proof.
  refine (proj2 (proj2 (nan_amount_poisons_totals _
            (entry_of "n1" 3 {| Payload.description := "Bus";
                                Payload.amount := JS.parseFloat " ";
                                Payload.type := "expense" |} None)
            _ eq_refl) eq_refl)).
  right; left; reflexivity.
Defined.

(** * Invariants of the event loop *)

Lemma session_inv_initial (a : option string) (docs : list Doc) :
  session_inv (initial_world a docs).
Proof. unfold session_inv; simpl. intuition congruence. Qed.

Lemma session_inv_step (w : World) (ev : event) :
  session_inv w -> session_inv (step w ev).
Proof.
  unfold session_inv. intros (Hda & Hu & Hl & Hi).
  destruct ev; crush_step; simpl in *;
    repeat match goal with
           | H : JS.truthy_opt ?u = true |- _ =>
               destruct u; [clear H | discriminate H]
           | H : (_ || _)%bool = false |- _ =>
               apply orb_false_iff in H; destruct H
           | H : negb _ = false |- _ => apply negb_false_iff in H
           end;
    repeat split; intros; try discriminate; try congruence;
    try (apply Hda; congruence); try (apply Hu; congruence);
    try (apply Hl; congruence); try (apply Hi; congruence);
    try tauto.
    try (destruct (auth (app w)); [|discriminate];
         intro Hx; apply Hda in Hx; discriminate).
Qed.

Lemma session_inv_run (evs : list event) :
  forall w, session_inv w -> session_inv (run evs w).
Proof.
  induction evs as [|ev evs IH]; intros w Hw; simpl; [exact Hw|].
  apply IH, session_inv_step, Hw.
Qed.

(** X5.  In every reachable state: the database and auth handles are set
    together; a session identifier is known only once the handshake is
    marked complete and the database handle is there; the listener is
    attached, and the Snapshot non-empty, only for a session with an
    identifier.  So the guard of the data-fetching effect comes down to its
    last test: the effect attaches the listener exactly when [userId] is
    truthy. *)
Theorem session_state_invariant (a : option string) (docs : list Doc)
    (evs : list event) :
  let w := run evs (initial_world a docs) in
  (db (app w) = None <-> auth (app w) = None) /\
  (userId (app w) <> None ->
   isAuthReady (app w) = true /\ db (app w) <> None) /\
  (listening w = true -> userId (app w) <> None) /\
  (items (app w) <> [] -> userId (app w) <> None) /\
  fst (dataFetchingEffect w) = Normal (JS.truthy_opt (userId (app w))).
Proof.
  cbv zeta.
  pose proof (session_inv_run evs _ (session_inv_initial a docs)) as Hinv.
  destruct Hinv as (Hda & Hu & Hl & Hi).
  repeat split; try assumption; try (apply Hda); try (apply Hu; assumption).
  unfold_handlers.
  destruct (userId (app (run evs (initial_world a docs)))) as [u|] eqn:E.
  - destruct (Hu ltac:(discriminate)) as [Hr Hdb]. rewrite Hr.
    destruct (db (app (run evs (initial_world a docs)))); [|congruence].
    simpl. destruct (JS.truthy u); reflexivity.
  - simpl. rewrite !orb_true_r. reflexivity.
Qed.

Lemma session_state_invariant_witness :
  userId (app ready_world) <> None /\
  isAuthReady (app ready_world) = true /\
  db (app ready_world) <> None.
Proof.
  assert (Hu : userId (app ready_world) <> None) by discriminate.
  split; [exact Hu|].
  exact (proj1 (proj2
    (session_state_invariant None [paycheck_doc]
       [Mount SdkReady; AuthStateChanged (Some "u1"); DataEffect;
        SnapshotNext])) Hu).
Defined.

Lemma step_userId (w : World) (ev : event) :
  is_signed_in ev = false -> userId (app (step w ev)) = userId (app w).
Proof.
  destruct ev as [| [u|] | | | | | | | | | |]; simpl; intro H;
    try discriminate; crush_step; reflexivity.
Qed.

(** X6.  As long as the auth listener has not reported a signed-in user,
    whatever else happens, the session has no identifier, no listener is
    attached and the Snapshot stays empty. *)
Theorem no_user_no_snapshot (a : option string) (docs : list Doc)
    (evs : list event)
    (Hevs : forallb (fun ev => negb (is_signed_in ev)) evs = true) :
  let w := run evs (initial_world a docs) in
  userId (app w) = None /\ listening w = false /\ items (app w) = [].
Proof.
  cbv zeta.
  assert (Hu : userId (app (run evs (initial_world a docs))) = None).
  { assert (G : forall w, userId (app w) = None ->
                          userId (app (run evs w)) = None).
    { induction evs as [|ev evs IH]; intros w Hw; simpl; [exact Hw|].
      simpl in Hevs. apply andb_true_iff in Hevs. destruct Hevs as [H1 H2].
      apply (IH H2). rewrite step_userId; [exact Hw|].
      now apply negb_true_iff. }
    apply G. reflexivity. }
  pose proof (session_inv_run evs _ (session_inv_initial a docs))
    as (_ & _ & Hl & Hi).
  split; [exact Hu|]. split.
  - destruct (listening _); [|reflexivity]. now destruct (Hl eq_refl).
  - destruct (items _) eqn:E; [reflexivity|].
    destruct Hi; [discriminate | exact Hu].
Qed.

Lemma no_user_no_snapshot_witness :
  listening (run [DataEffect; SnapshotNext; RemoteInsert (gift "s1" 7);
                  DataEffect; SnapshotNext] signin_failed_world) = false /\
  items (app (run [DataEffect; SnapshotNext; RemoteInsert (gift "s1" 7);
                   DataEffect; SnapshotNext] signin_failed_world)) = [].
Proof.
  exact (proj2 (no_user_no_snapshot None [paycheck_doc]
    [Mount SdkReady; AuthStateChanged None;
     SignInSettled (Some "auth/network-request-failed");
     DataEffect; SnapshotNext; RemoteInsert (gift "s1" 7);
     DataEffect; SnapshotNext] eq_refl)).
Defined.

Lemma step_uncaught (w : World) (ev : event) :
  uncaught (step w ev)
  = match ev with
    | Mount (ConfigMalformed err) => err :: uncaught w
    | _ => uncaught w
    end.
Proof.
  destruct ev as [[]| | | | | | | | | | |]; crush_step; reflexivity.
Qed.

(** X7.  No handler lets an exception escape, with one exception: the
    start-up effect when [JSON.parse] rejects the configuration text.  The
    uncaught exceptions of a run are exactly those parse errors. *)
Theorem only_config_parse_throws (w : World) (evs : list event) :
  uncaught (run evs w) = rev (config_parse_errors evs) ++ uncaught w.
Proof.
  revert w. induction evs as [|ev evs IH]; intros w; simpl; [reflexivity|].
  rewrite IH, step_uncaught.
  destruct ev as [[]| | | | | | | | | | |]; simpl; try reflexivity.
  now rewrite <- app_assoc.
Qed.

(** X8.  An error, once set, is never cleared: after any further events
    [error] is still set and [App] renders the error message alone, without
    the forms and the lists. *)
Theorem error_is_final (w : World) (evs : list event)
    (Herr : JS.truthy_opt (error (app w)) = true) :
  JS.truthy_opt (error (app (run evs w))) = true /\
  exists msg, error (app (run evs w)) = Some msg /\
              render (app (run evs w)) = ErrorScreen msg.
Proof.
  assert (H : JS.truthy_opt (error (app (run evs w))) = true).
  { revert w Herr. induction evs as [|ev evs IH]; intros w Herr; simpl;
      [exact Herr|]. apply IH, step_error_sticky, Herr. }
  split; [exact H|].
  unfold render. rewrite H.
  destruct (error (app (run evs w))) as [msg|]; [|discriminate].
  exists msg. split; reflexivity.
Qed.

Lemma error_is_final_witness :
  render (app (run [DataEffect; AuthStateChanged (Some "u1"); DataEffect;
                    SnapshotNext; AddItem rent]
                 signin_failed_world))
  = ErrorScreen "Failed to authenticate. Please refresh the page.".
Proof.
  destruct (error_is_final signin_failed_world
              [DataEffect; AuthStateChanged (Some "u1"); DataEffect;
               SnapshotNext; AddItem rent] eq_refl)
    as (_ & msg & Hm & Hr).
  rewrite Hr. f_equal.
  apply (f_equal (fun o => match o with Some m => m | None => "" end)) in Hm.
  symmetry. exact Hm.
Defined.

Lemma without_db_step (w : World) (ev : event) :
  without_db w -> is_mount ev = false ->
  without_db (step w ev) /\ app (step w ev) = app w.
Proof.
  unfold without_db. intros (Hdb & Ha & Hs & Hl & Hp & Hc) Hev.
  destruct ev; try discriminate Hev; unfold_handlers;
    rewrite ?Hdb, ?Ha, ?Hs, ?Hl, ?Hp; simpl;
    rewrite ?Hdb, ?Ha, ?Hs, ?Hl, ?Hp; simpl;
    repeat (break_match; simpl);
    rewrite ?Hdb, ?Ha, ?Hs, ?Hl, ?Hp, ?Hc; simpl;
    try (destruct n; discriminate);
    try (match goal with
         | H : negb (JS.truthy_obj (db (app w))) = false |- _ =>
             rewrite Hdb in H; discriminate H
         end);
    repeat split; try assumption; try reflexivity;
    destruct w as [[]]; simpl in *; congruence.
Qed.

Lemma without_db_run (evs : list event) :
  forall w, without_db w ->
            forallb (fun ev => negb (is_mount ev)) evs = true ->
            without_db (run evs w) /\ app (run evs w) = app w.
Proof.
  induction evs as [|ev evs IH]; intros w Hw Hevs; simpl; [now split|].
  simpl in Hevs. apply andb_true_iff in Hevs. destruct Hevs as [H1 H2].
  apply negb_true_iff in H1.
  destruct (without_db_step w ev Hw H1) as [Hw' Ha].
  destruct (IH _ Hw' H2) as [Hw'' Ha'].
  split; [exact Hw''|]. now rewrite Ha'.
Qed.

(** X9.  A start-up that fails with a missing configuration or a throwing
    SDK is final: the error of that failure is shown, [loading] is off, and
    whatever the user or the store does afterwards the component state
    stays exactly so; no write is ever sent and no listener attached. *)
Theorem failed_startup_is_final (a : option string) (docs : list Doc)
    (s : Startup) (msg : string) (evs : list event)
    (Hs : startup_error s = Some msg)
    (Hevs : forallb (fun ev => negb (is_mount ev)) evs = true) :
  let w := run evs (step (initial_world a docs) (Mount s)) in
  app w = {| db := None; auth := None; userId := None; isAuthReady := false;
             items := []; loading := false; error := Some msg |} /\
  calls w = [] /\ pending w = [] /\ listening w = false /\
  uncaught w = [] /\
  render (app w) = ErrorScreen msg.
Proof.
  cbv zeta.
  assert (H0 : without_db (step (initial_world a docs) (Mount s)) /\
               app (step (initial_world a docs) (Mount s))
               = {| db := None; auth := None; userId := None;
                    isAuthReady := false; items := []; loading := false;
                    error := Some msg |} /\
               uncaught (step (initial_world a docs) (Mount s)) = []).
  { destruct s; simpl in Hs; try discriminate; injection Hs as <-;
      unfold without_db; simpl; repeat split. }
  destruct H0 as (Hw & Ha & Hu).
  destruct (without_db_run evs _ Hw Hevs) as [(_ & _ & _ & Hl & Hp & Hc) Happ].
  rewrite Happ, Ha.
  repeat split; try assumption.
  - clear - Hu Hevs.
    revert Hu. generalize (step (initial_world a docs) (Mount s)).
    induction evs as [|ev evs IH]; intros w Hu; simpl; [exact Hu|].
    simpl in Hevs. apply andb_true_iff in Hevs. destruct Hevs as [H1 H2].
    apply (IH H2). rewrite step_uncaught.
    destruct ev; try exact Hu. discriminate H1.
  - destruct msg; [|reflexivity].
    destruct s; simpl in Hs; discriminate.
Qed.

Lemma failed_startup_is_final_witness :
  let w := run [AuthStateChanged (Some "u1"); DataEffect; AddItem rent;
                DeleteItem "a1"; SnapshotNext]
             (step (initial_world None [paycheck_doc])
                (Mount (SdkThrows "app/invalid-api-key"))) in
  calls w = [] /\ listening w = false /\
  render (app w) = ErrorScreen "Could not connect to the database.".
Proof.
  cbv zeta.
  destruct (failed_startup_is_final None [paycheck_doc]
              (SdkThrows "app/invalid-api-key")
              "Could not connect to the database."
              [AuthStateChanged (Some "u1"); DataEffect; AddItem rent;
               DeleteItem "a1"; SnapshotNext] eq_refl eq_refl)
    as (_ & Hc & _ & Hl & _ & Hr).
  split; [exact Hc|]. split; [exact Hl | exact Hr].
Defined.

(** * What is written, and where *)

Lemma step_app_id (w : World) (ev : event) : app_id (step w ev) = app_id w.
Proof. destruct ev; crush_step; reflexivity. Qed.

Lemma own_write_app_id (w w' : World) (c : StoreCall) :
  app_id w' = app_id w -> own_write w c -> own_write w' c.
Proof.
  intro H. unfold own_write, collectionPath, docPath, appId.
  now rewrite H.
Qed.

Lemma step_db_stays (w : World) (ev : event) :
  db (app w) <> None -> db (app (step w ev)) <> None.
Proof.
  intro H. destruct ev; crush_step; try exact H; discriminate.
Qed.

Lemma incl_remove_nth {A : Type} (n : nat) (l : list A) :
  incl (remove_nth n l) l.
Proof.
  unfold remove_nth. intros x Hx. apply in_app_or in Hx.
  destruct Hx as [Hx|Hx].
  - rewrite <- (firstn_skipn n l). apply in_or_app. now left.
  - rewrite <- (firstn_skipn (S n) l). apply in_or_app. now right.
Qed.

(** A step sends at most one write, of this deployment and with the
    database handle present; otherwise it settles one or leaves the writes
    alone. *)
Lemma step_writes (w : World) (ev : event) :
  (calls (step w ev) = calls w /\
   (pending (step w ev) = pending w \/
    exists n, pending (step w ev) = remove_nth n (pending w))) \/
  (db (app w) <> None /\
   exists c, own_write w c /\ calls (step w ev) = c :: calls w /\
             pending (step w ev) = pending w ++ [c]).
Proof.
  destruct ev; crush_step;
    try (left; split; [reflexivity | left; reflexivity]);
    try (left; split; [reflexivity | right; eexists; reflexivity]);
    right;
    (split; [intro Hx;
             match goal with
             | H : negb (JS.truthy_obj (db (app w))) = false |- _ =>
                 rewrite Hx in H; discriminate H
             end |]);
    eexists; (split; [|split; reflexivity]); simpl;
    try reflexivity; eexists; reflexivity.
Qed.

Lemma writes_inv_step (w : World) (ev : event) :
  writes_inv w -> writes_inv (step w ev).
Proof.
  intros (Hf & Hi & Hd).
  assert (Hown : forall c, own_write w c -> own_write (step w ev) c)
    by (intro c; apply own_write_app_id, step_app_id).
  assert (Hf' : Forall (own_write (step w ev)) (calls w))
    by (eapply Forall_impl; [exact Hown | exact Hf]).
  destruct (step_writes w ev) as [[Hc Hp] | (Hdb & c & Hc0 & Hc & Hp)].
  - unfold writes_inv. rewrite Hc. split; [exact Hf'|]. split.
    + destruct Hp as [-> | [n ->]]; [exact Hi|].
      eapply incl_tran; [apply incl_remove_nth | exact Hi].
    + intro Hn. apply Hd.
      destruct (db (app w)) eqn:E; [|reflexivity].
      exfalso. apply (step_db_stays w ev); [congruence | exact Hn].
  - unfold writes_inv. rewrite Hc, Hp. split; [|split].
    + constructor; [now apply Hown | exact Hf'].
    + intros x Hx. apply in_app_or in Hx. destruct Hx as [Hx|[<-|[]]].
      * right. now apply Hi.
      * now left.
    + intro Hn. exfalso. apply (step_db_stays w ev Hdb Hn).
Qed.

(** X10.  Every write the session has ever sent is an [addDoc] on the
    collection of its own deployment or a [deleteDoc] of a document path
    below it; the writes in flight are among those sent; and as long as the
    database handle is missing nothing has been sent at all. *)
Theorem writes_stay_in_collection (a : option string) (docs : list Doc)
    (evs : list event) :
  let w := run evs (initial_world a docs) in
  Forall (own_write w) (calls w) /\
  incl (pending w) (calls w) /\
  (db (app w) = None -> calls w = []).
Proof.
  cbv zeta. change (writes_inv (run evs (initial_world a docs))).
  assert (G : forall w, writes_inv w -> writes_inv (run evs w)).
  { induction evs as [|ev evs IH]; intros w Hw; simpl; [exact Hw|].
    apply IH, writes_inv_step, Hw. }
  apply G. unfold writes_inv; simpl.
  split; [constructor|]. split; [apply incl_refl | reflexivity].
Qed.

Lemma writes_stay_in_collection_witness :
  Forall (own_write (run (scenario_events ++ [DeleteItem "a1"])
                       (initial_world None [])))
    (calls (run (scenario_events ++ [DeleteItem "a1"])
              (initial_world None []))) /\
  calls (run [Submit "income" {| AddItemForm.description := "Paycheck";
                                 AddItemForm.amount := "1000" |}]
           (initial_world None [])) = [].
Proof.
  split.
  - exact (proj1 (writes_stay_in_collection None []
                    (scenario_events ++ [DeleteItem "a1"]))).
  - exact (proj2 (proj2 (writes_stay_in_collection None []
             [Submit "income" {| AddItemForm.description := "Paycheck";
                                 AddItemForm.amount := "1000" |}]))
             eq_refl).
Defined.

(** * Snapshots and round trips *)

Lemma snapshot_next_world (w : World) :
  listening w = true ->
  step w SnapshotNext
  = with_app (fun a =>
      {| db := db a; auth := auth a; userId := userId a;
         isAuthReady := isAuthReady a;
         items := map item_of_doc (query_orderBy_createdAt_desc (remote w));
         loading := false; error := error a |}) w.
Proof. intro Hl. unfold_handlers. rewrite Hl. reflexivity. Qed.

(** X11.  A delivered Snapshot mirrors the collection: its entries are
    exactly the documents of the store, each once, under the document's
    identifier; [loading] is off afterwards; and delivering the same
    Snapshot again changes nothing. *)
Theorem snapshot_mirrors_store (w : World) (Hl : listening w = true) :
  let w' := step w SnapshotNext in
  (forall e, In e (items (app w')) <->
             exists d, In d (remote w) /\ e = item_of_doc d) /\
  Permutation (map id (items (app w'))) (map doc_id (remote w)) /\
  List.length (items (app w')) = List.length (remote w) /\
  loading (app w') = false /\
  step w' SnapshotNext = w'.
Proof.
  cbv zeta.
  assert (Hagain : step (step w SnapshotNext) SnapshotNext
                   = step w SnapshotNext).
  { rewrite (snapshot_next_world w Hl).
    rewrite snapshot_next_world; [reflexivity | exact Hl]. }
  rewrite Hagain. rewrite (snapshot_next_world w Hl). simpl.
  split; [|split; [|split; [|split]]].
  - intro e. rewrite in_map_iff. split.
    + intros (d & <- & Hd). exists d. split; [|reflexivity].
      eapply Permutation_in; [apply query_perm | exact Hd].
    + intros (d & Hd & ->). exists d. split; [reflexivity|].
      eapply Permutation_in; [symmetry; apply query_perm | exact Hd].
  - rewrite map_map. simpl.
    change (fun x : Doc => doc_id x) with doc_id.
    apply Permutation_map, query_perm.
  - rewrite length_map. apply Permutation_length, query_perm.
  - reflexivity.
  - reflexivity.
Qed.

Lemma snapshot_mirrors_store_witness :
  listening ready_world = true /\
  map id (items (app (step (step ready_world (RemoteInsert (gift "s1" 7)))
                        SnapshotNext))) = ["a1"; "s1"] /\
  List.length (items (app (step (step ready_world
                                   (RemoteInsert (gift "s1" 7)))
                             SnapshotNext))) = 2.
Proof.
  split; [reflexivity|]. split; [reflexivity|].
  exact (proj1 (proj2 (proj2
    (snapshot_mirrors_store (step ready_world (RemoteInsert (gift "s1" 7)))
       eq_refl)))).
Defined.

(** An add sent with the handle present and fulfilled by the store. *)
Lemma add_fulfilled (w : World) (item : Payload.t) (newId : string)
    (serverTime : Z) :
  db (app w) <> None ->
  let fields := {| NewDoc.item := item; NewDoc.createdAt := serverTimestamp;
                   NewDoc.authorId := userId (app w) |} in
  let w2 := step (step w (AddItem item))
              (StoreReply (List.length (pending w))
                 (Fulfilled newId serverTime)) in
  remote w2 = store_insert newId serverTime fields (remote w) /\
  calls w2 = AddDoc (collectionPath w) fields :: calls w /\
  pending w2 = pending w /\
  listening w2 = listening w /\
  loading (app w2) = false /\
  error (app w2) = error (app w) /\
  items (app w2) = items (app w) /\
  userId (app w2) = userId (app w).
Proof.
  intro Hdb. cbv zeta. unfold_handlers.
  destruct (db (app w)); [|congruence]. simpl.
  rewrite nth_error_snoc, remove_nth_snoc. simpl.
  unfold collectionPath, appId; simpl. rewrite String.eqb_refl.
  repeat split.
Qed.

(** X12.  Round trip of an add.  A form that passes the constraints of
    its markup, submitted with the database handle present and the
    listener attached: once the store has fulfilled the write and
    delivered the next Snapshot,
    [items] holds the entry with the identifier and timestamp the store
    assigned, the description and type of the form, the parsed amount and
    the session's [userId] as author; [loading] is off, the write is no
    longer in flight and no error was set. *)
Theorem add_round_trip (w : World) (type : string)
    (form : AddItemForm.State) (newId : string) (serverTime : Z)
    (Hdb : db (app w) <> None) (Hl : listening w = true)
    (Hv : AddItemForm.checkValidity form = true) :
  let w3 := run [Submit type form;
                 StoreReply (List.length (pending w))
                   (Fulfilled newId serverTime);
                 SnapshotNext] w in
  In (entry_of newId serverTime
        {| Payload.description := AddItemForm.description form;
           Payload.amount := JS.parseFloat (AddItemForm.amount form);
           Payload.type := type |}
        (userId (app w)))
     (items (app w3)) /\
  List.length (items (app w3)) = S (List.length (remote w)) /\
  loading (app w3) = false /\
  pending w3 = pending w /\
  error (app w3) = error (app w).
Proof.
  cbv zeta. unfold run. cbn [fold_left].
  set (item := {| Payload.description := AddItemForm.description form;
                  Payload.amount := JS.parseFloat (AddItemForm.amount form);
                  Payload.type := type |}).
  destruct (valid_form_fields form Hv) as (Hd & Ha & _).
  assert (Hs : step w (Submit type form) = step w (AddItem item)).
  { unfold step, run_handler, AddItemForm.handleSubmit, bind, ret.
    rewrite Hv, Hd, Ha. simpl. fold item.
    destruct (handleAddItem item w) as [[[]|e] w']; reflexivity. }
  rewrite Hs.
  destruct (add_fulfilled w item newId serverTime Hdb)
    as (Hr & _ & Hp & Hl2 & _ & He & _ & _).
  set (w2 := step (step w (AddItem item)) _) in *.
  rewrite Hl in Hl2.
  rewrite (snapshot_next_world w2 Hl2). simpl. rewrite Hr.
  split; [|split; [|split; [|split]]].
  - apply in_map_iff.
    exists {| doc_id := newId;
              doc_data :=
                {| DocData.description := Payload.description item;
                   DocData.amount := Payload.amount item;
                   DocData.type := Payload.type item;
                   DocData.createdAt := serverTime;
                   DocData.authorId := userId (app w) |} |}.
    split; [reflexivity|].
    eapply Permutation_in; [symmetry; apply query_perm|].
    unfold store_insert. apply in_or_app. right. left. reflexivity.
  - rewrite length_map, (Permutation_length (query_perm _)).
    unfold store_insert. rewrite length_app. simpl. lia.
  - reflexivity.
  - exact Hp.
  - exact He.
Qed.

Lemma add_round_trip_witness :
  let w3 := run [Submit "expense" {| AddItemForm.description := "Groceries";
                                     AddItemForm.amount := "150.50" |};
                 StoreReply 0 (Fulfilled "a2" 20); SnapshotNext]
              ready_world in
  In {| id := "a2"; description := "Groceries"; amount := 150.5%float;
        type := "expense"; createdAt := 20; authorId := Some "u1" |}
     (items (app w3)) /\
  List.length (items (app w3)) = 2.
Proof.
  cbv zeta.
  destruct (add_round_trip ready_world "expense"
              {| AddItemForm.description := "Groceries";
                 AddItemForm.amount := "150.50" |} "a2" 20
              ltac:(discriminate) eq_refl eq_refl)
    as (Hin & Hlen & _).
  split; [exact Hin | exact Hlen].
Defined.

(** * The form *)



(** * A delete the store refuses *)

(** X15.  When the store rejects a delete that is in flight, the rest of
    [handleDeleteItem] logs the failure and shows ["Could not delete the
    item."]; it ends without an uncaught exception and touches neither
    [loading] nor the Snapshot; the collection is as before, so the entry
    is still in every Snapshot delivered afterwards. *)
Theorem delete_rejected (w : World) (n : nat) (path err : string)
    (Hpending : nth_error (pending w) n = Some (DeleteDoc path)) :
  let w' := step w (StoreReply n (Rejected err)) in
  error (app w') = Some "Could not delete the item." /\
  console w' = ("Error deleting document: " ++ err)%string :: console w /\
  uncaught w' = uncaught w /\
  loading (app w') = loading (app w) /\
  items (app w') = items (app w) /\
  remote w' = remote w /\
  pending w' = remove_nth n (pending w) /\
  (listening w = true ->
   forall d, In d (remote w) ->
             In (item_of_doc d) (items (app (step w' SnapshotNext)))).
Proof.
  cbv zeta.
  assert (Hr : remote (step w (StoreReply n (Rejected err))) = remote w)
    by (unfold_handlers; rewrite Hpending; reflexivity).
  assert (Hl : listening (step w (StoreReply n (Rejected err)))
               = listening w)
    by (unfold_handlers; rewrite Hpending; reflexivity).
  split; [unfold_handlers; rewrite Hpending; reflexivity|].
  split; [unfold_handlers; rewrite Hpending; reflexivity|].
  split; [unfold_handlers; rewrite Hpending; reflexivity|].
  split; [unfold_handlers; rewrite Hpending; reflexivity|].
  split; [unfold_handlers; rewrite Hpending; reflexivity|].
  split; [exact Hr|].
  split; [unfold_handlers; rewrite Hpending; reflexivity|].
  intros Hlw d Hd. rewrite step_items, Hl, Hlw, Hr.
  apply in_map. eapply Permutation_in; [symmetry; apply query_perm | exact Hd].
Qed.

Lemma delete_rejected_witness :
  let w := step ready_world (DeleteItem "a1") in
  let w' := step w (StoreReply 0 (Rejected "permission-denied")) in
  nth_error (pending w) 0
  = Some (DeleteDoc "artifacts/default-app-id/public/data/budget-items/a1") /\
  error (app w') = Some "Could not delete the item." /\
  In (item_of_doc paycheck_doc) (items (app (step w' SnapshotNext))).
Proof.
  cbv zeta. split; [reflexivity|].
  destruct (delete_rejected (step ready_world (DeleteItem "a1")) 0
              "artifacts/default-app-id/public/data/budget-items/a1"
              "permission-denied" eq_refl)
    as (He & _ & _ & _ & _ & _ & _ & Hs).
  split; [exact He|].
  apply Hs; [reflexivity | left; reflexivity].
Defined.
